(** * Post-earnings-announcement drift combined with strong momentum

    A shallow embedding of [main.py] (class [PostEarningsAnnouncement]) and
    the properties of its earnings index, momentum selection and position
    lifecycle.

    Conventions of the embedding:
    - a [datetime.date] is its proleptic Gregorian ordinal ([date.toordinal()]),
      an integer; comparison of dates is comparison of ordinals.  The range
      limits of the host's date types are not modelled;
    - Python floats (prices, momentum scores, portfolio weights) are read as
      exact rationals ([Qc]); rounding, infinities and NaN are not modelled;
    - [self] is a record threaded through a state-and-exception monad: a
      raised exception keeps every in-place mutation made before it;
    - the trading host (QuantConnect) is an interface, [Host]; calls to
      [self.Log] and the fee and leverage settings of
      [OnSecuritiesChanged] have no effect on what is modelled and are
      left out. *)

From Stdlib Require Import ZArith QArith Qcanon Lia Ascii String.
From stdpp Require Import base numbers list gmap strings fin_maps sorting.

#[local] Open Scope Z_scope.

(** ** Calendar dates *)

Module Calendar.

(** [datetime.date] as an ordinal; ordinal 1 is 0001-01-01, a Monday. *)
Abbreviation date := Z (only parsing).

Definition is_leap (y : Z) : bool :=
  (y mod 4 =? 0) && (negb (y mod 100 =? 0) || (y mod 400 =? 0)).

Definition days_in_month (y m : Z) : Z :=
  if m =? 2 then (if is_leap y then 29 else 28)
  else if (m =? 4) || (m =? 6) || (m =? 9) || (m =? 11) then 30
  else 31.

Definition days_before_year (y : Z) : Z :=
  let y1 := y - 1 in y1 * 365 + y1 / 4 - y1 / 100 + y1 / 400.

Definition days_before_month (y m : Z) : Z :=
  nth (Z.to_nat m) [0; 0; 31; 59; 90; 120; 151; 181; 212; 243; 273; 304; 334] 0
  + (if (2 <? m) && is_leap y then 1 else 0).

(** [datetime(y, m, d).date()]: [None] is [ValueError]. *)
Definition ymd2ord (y m d : Z) : option date :=
  if (1 <=? y) && (y <=? 9999) && (1 <=? m) && (m <=? 12)
     && (1 <=? d) && (d <=? days_in_month y m)
  then Some (days_before_year y + days_before_month y m + d)
  else None.

(** [date.weekday()]: Monday is 0, Sunday is 6. *)
Definition weekday (d : date) : Z := (d + 6) mod 7.

(** *** [datetime.strptime(s, "%Y-%m-%d")]

    The format compiles to the regular expression
    [(\d\d\d\d)-(1[0-2]|0[1-9]|[1-9])-(3[0-1]|[1-2]\d|0[1-9]|[1-9]| [1-9])];
    alternatives are tried in order, with backtracking into the
    continuation [k].  Only ASCII digits are modelled. *)

Definition digit (c : ascii) : option Z :=
  let n := Z.of_N (N_of_ascii c) in
  if (48 <=? n) && (n <=? 57) then Some (n - 48) else None.

Definition digit_in (lo hi : Z) (c : ascii) : option Z :=
  match digit c with
  | Some v => if (lo <=? v) && (v <=? hi) then Some v else None
  | None => None
  end.

Definition orelse {A} (x y : option A) : option A :=
  match x with Some _ => x | None => y end.

Definition re_Y {A} (s : list ascii) (k : Z → list ascii → option A) : option A :=
  match s with
  | a :: b :: c :: d :: r =>
      match digit a, digit b, digit c, digit d with
      | Some va, Some vb, Some vc, Some vd =>
          k (1000 * va + 100 * vb + 10 * vc + vd) r
      | _, _, _, _ => None
      end
  | _ => None
  end.

Definition re_lit {A} (x : ascii) (s : list ascii) (k : list ascii → option A) : option A :=
  match s with
  | c :: r => if Ascii.eqb c x then k r else None
  | [] => None
  end.

(** One alternative made of a first character in [lo1..hi1] followed by
    a second in [lo2..hi2]. *)
Definition re_two {A} (lo1 hi1 lo2 hi2 : Z) (s : list ascii)
    (k : Z → list ascii → option A) : option A :=
  match s with
  | a :: b :: r =>
      match digit_in lo1 hi1 a, digit_in lo2 hi2 b with
      | Some va, Some vb => k (10 * va + vb) r
      | _, _ => None
      end
  | _ => None
  end.

Definition re_one {A} (lo hi : Z) (s : list ascii)
    (k : Z → list ascii → option A) : option A :=
  match s with
  | a :: r => match digit_in lo hi a with Some va => k va r | None => None end
  | [] => None
  end.

Definition re_m {A} (s : list ascii) (k : Z → list ascii → option A) : option A :=
  orelse (re_two 1 1 0 2 s k) (orelse (re_two 0 0 1 9 s k) (re_one 1 9 s k)).

Definition re_d {A} (s : list ascii) (k : Z → list ascii → option A) : option A :=
  orelse (re_two 3 3 0 1 s k)
    (orelse (re_two 1 2 0 9 s k)
       (orelse (re_two 0 0 1 9 s k)
          (orelse (re_one 1 9 s k)
             (re_lit " "%char s (λ r, re_one 1 9 r k))))).

(** The match, then the check that no unconverted data remains, then the
    construction of the date.  [None] is [ValueError]. *)
Definition strptime_date (s : string) : option date :=
  match re_Y (list_ascii_of_string s) (λ y r1,
          re_lit "-"%char r1 (λ r2,
          re_m r2 (λ m r3,
          re_lit "-"%char r3 (λ r4,
          re_d r4 (λ d r5, Some (y, m, d, r5)))))) with
  | Some (y, m, d, []) => ymd2ord y m d
  | _ => None
  end.

(** *** [pandas.tseries.offsets.BDay]

    [BusinessDay._adjust_ndays] and [BusinessDay._apply] on a date. *)
Definition adjust_ndays (n wday weeks : Z) : Z :=
  let n := if (n <=? 0) && (4 <? wday) then n + 1 else n in
  let n := n - 5 * weeks in
  if (n =? 0) && (4 <? wday) then 4 - wday
  else if 4 <? wday then (7 - wday) + (n - 1)
  else if wday + n <=? 4 then n
  else n + 2.

Definition add_BDay (d : date) (n : Z) : date :=
  let wday := weekday d in
  let weeks := n / 5 in
  let days := adjust_ndays n wday weeks in
  d + (7 * weeks + days).

(** [d - BDay(n)] is [d + BDay(-n)]. *)
Definition sub_BDay (d : date) (n : Z) : date := add_BDay d (- n).

End Calendar.

Import Calendar.

(** ** Exceptions *)

Inductive exn : Type :=
  | KeyError (key : string)
  | ValueError
  | TypeError
  | IndexError
  | ZeroDivisionError
  | NotReadyError
  | DivisionByZeroError.

Inductive outcome (A : Type) : Type :=
  | Ok (a : A)
  | Raise (e : exn).
Arguments Ok {A} a.
Arguments Raise {A} e.

#[global] Instance exn_eq_dec : EqDecision exn.
Proof. solve_decision. Defined.

#[global] Instance outcome_eq_dec {A} `{EqDecision A} : EqDecision (outcome A).
Proof. solve_decision. Defined.

(** ** Python built-ins used by the script *)

Module Py.

(** [a / b] on ints, read as an exact rational. *)
Definition truediv (a b : Z) : outcome Qc :=
  if b =? 0 then Raise ZeroDivisionError
  else Ok (Q2Qc (inject_Z a) / Q2Qc (inject_Z b))%Qc.

(** [int(a / b)] on ints: the quotient truncated towards zero (the float
    division is exact on the integer part for counts below 2^53). *)
Definition int_truediv (a b : Z) : outcome Z :=
  if b =? 0 then Raise ZeroDivisionError else Ok (Z.quot a b).

(** [a % b] on ints: the result has the sign of [b]. *)
Definition mod_ (a b : Z) : outcome Z :=
  if b =? 0 then Raise ZeroDivisionError else Ok (a mod b).

(** [l[i:]], for any integer [i]. *)
Definition slice_from {A} (i : Z) (l : list A) : list A :=
  let len := Z.of_nat (length l) in
  let i := if i <? 0 then Z.max 0 (i + len) else Z.min i len in
  drop (Z.to_nat i) l.

(** [d[k] = v] on a dict kept in insertion order: an existing key keeps
    its place and takes the new value, a new key goes last. *)
Fixpoint dict_set {K V} `{EqDecision K} (k : K) (v : V) (d : list (K * V)) : list (K * V) :=
  match d with
  | [] => [(k, v)]
  | (k', v') :: d' =>
      if decide (k' = k) then (k, v) :: d' else (k', v') :: dict_set k v d'
  end.

(** [sorted(l, key=key)]: ascending and stable, comparing keys with [<]
    only.  Each element goes before the first element of the sorted tail
    whose key is not smaller. *)
Fixpoint insort {A} (key : A → Qc) (x : A) (l : list A) : list A :=
  match l with
  | [] => [x]
  | y :: l' =>
      if bool_decide (key y < key x)%Qc then y :: insort key x l'
      else x :: y :: l'
  end.

Definition sorted {A} (key : A → Qc) (l : list A) : list A :=
  foldr (insort key) [] l.

(** [l.remove(x)]: drops the first element equal to [x]; [None] is
    [ValueError]. *)
Fixpoint remove {A} `{EqDecision A} (x : A) (l : list A) : option (list A) :=
  match l with
  | [] => None
  | y :: l' => if decide (y = x) then Some l' else cons y <$> remove x l'
  end.

End Py.

(** ** The host platform *)

(** What the script consumes from QuantConnect: symbols, and the state of
    [self.Securities] and [self.Portfolio] with the two order calls.  The
    lookups [self.Securities[symbol]] and [self.Portfolio[symbol]] are
    total: the host knows every symbol the script asks about. *)
Class Host : Type := {
  Symbol : Type;
  Symbol_eq_dec :: EqDecision Symbol;
  Symbol_countable :: Countable Symbol;
  Value : Symbol → string;
  Brokerage : Type;
  Invested : Brokerage → Symbol → bool;
  Price : Brokerage → Symbol → Qc;
  IsTradable : Brokerage → Symbol → bool;
  IsLong : Brokerage → Symbol → bool;
  SetHoldings : Brokerage → Symbol → Qc → Brokerage;
  Liquidate : Brokerage → Symbol → Brokerage
}.

(** Instructions sent to the host, in the order they are issued. *)
Inductive Order `{Host} : Type :=
  | OrderSetHoldings (s : Symbol) (w : Qc)
  | OrderLiquidate (s : Symbol).

#[global] Instance Order_eq_dec `{Host} : EqDecision Order.
Proof. solve_decision. Defined.

(** ** [data_tools] *)

Module data_tools.

(** Modelled from the spec: [data_tools.SymbolData], the rolling
    performance tracker, is not in the source.  A window of closing
    prices of fixed capacity; [update] appends and evicts the oldest
    price beyond capacity; [is_ready] is [size == capacity];
    [performance] is [(last - first) / first], failing with
    [NotReadyError] before the window is full and with
    [DivisionByZeroError] when [first == 0]. *)
Record SymbolData : Type := {
  capacity : Z;
  window : list Qc
}.

(** Modelled from the spec: [SymbolData(period)], an empty window. *)
Definition new (period : Z) : SymbolData :=
  {| capacity := period; window := [] |}.

(** Modelled from the spec: [update(price)] appends the price and evicts
    the oldest one if the window is over capacity. *)
Definition update (price : Qc) (sd : SymbolData) : SymbolData :=
  let w := window sd ++ [price] in
  {| capacity := capacity sd;
     window := if capacity sd <? Z.of_nat (length w) then drop 1 w else w |}.

(** Modelled from the spec: [is_ready()] is [size == capacity]. *)
Definition is_ready (sd : SymbolData) : bool :=
  Z.of_nat (length (window sd)) =? capacity sd.

(** Modelled from the spec: [performance()] fails with [NotReadyError]
    before [is_ready()], with [DivisionByZeroError] if [first == 0], and is
    [(last - first) / first] otherwise.  The spec is silent on a ready
    window of capacity zero; it is given [IndexError]. *)
Definition performance (sd : SymbolData) : outcome Qc :=
  if negb (is_ready sd) then Raise NotReadyError
  else match head (window sd), last (window sd) with
       | Some first, Some last =>
           if bool_decide (first = 0%Qc) then Raise DivisionByZeroError
           else Ok ((last - first) / first)%Qc
       | _, _ => Raise IndexError
       end.

(** Modelled from the spec: [data_tools.ManagedSymbol] is not in the
    source; a record of the instrument and its two dates.  Records are
    compared field by field.  [OnData] marks every record equal to one it
    marks, so [list.remove] leaves the same list whether it compares
    records by their fields or by identity. *)
Record ManagedSymbol `{Host} : Type := {
  symbol : Symbol;
  date_to_switch : date;
  date_to_liquidate : date
}.

#[global] Instance ManagedSymbol_eq_dec `{Host} : EqDecision ManagedSymbol.
Proof. solve_decision. Defined.

End data_tools.

Import data_tools.

(** ** The algorithm object *)

(** The attributes that [Initialize] sets once and nothing changes. *)
Record Config : Type := {
  quantile : Z;
  period : Z;
  rebalance_period : Z;
  leverage : Z;
  free_margin : Z;
  buyDaysBefore : Z;
  sellDaysAfter : Z;
  switchDaysAfter : Z;
  managed_symbols_size : Z
}.

#[global] Instance Config_eq_dec : EqDecision Config.
Proof. solve_decision. Defined.

(** One decoded JSON object of the earnings feed, with the value types
    the feed has: a string under [date], a list of objects under [stocks],
    a string under [ticker].  [None] is an absent key.  A feed that holds
    a value of another type under one of these keys is outside the
    embedding. *)
Record stock_data : Type := { ticker : option string }.
Record feed_obj : Type := {
  obj_date : option string;
  obj_stocks : option (list stock_data)
}.

(** One element of [coarse]. *)
Record CoarseFundamental `{Host} : Type := {
  cf_Symbol : Symbol;
  cf_AdjustedPrice : Qc;
  cf_HasFundamentalData : bool;
  cf_Market : string;
  cf_Price : Qc
}.

(** The value [CoarseSelectionFunction] returns. *)
Inductive Universe `{Host} : Type :=
  | Unchanged
  | Symbols (l : list Symbol).

#[global] Instance Universe_eq_dec `{Host} : EqDecision Universe.
Proof. solve_decision. Defined.

(** The mutable attributes of [self], the host's brokerage state, and the
    instructions issued so far.  [schedule] holds the date lists handed to
    [self.Schedule.On] for [DaysBefore]. *)
Record Algorithm `{Host} : Type := {
  earnings : gmap Z (list string);
  earnings_universe : gset string;
  schedule : list (list date);
  data : gmap Symbol SymbolData;
  selected_symbols : list Symbol;
  managed_symbols : list ManagedSymbol;
  months_counter : Z;
  selection_flag : bool;
  brokerage : Brokerage;
  orders : list Order
}.

Section Algorithm.
Context `{Host}.

Definition set_earnings (f : gmap Z (list string) → gmap Z (list string))
    (a : Algorithm) : Algorithm :=
  {| earnings := f (earnings a); earnings_universe := earnings_universe a;
     schedule := schedule a; data := data a;
     selected_symbols := selected_symbols a;
     managed_symbols := managed_symbols a;
     months_counter := months_counter a; selection_flag := selection_flag a;
     brokerage := brokerage a; orders := orders a |}.

Definition set_earnings_universe (u : gset string) (a : Algorithm) : Algorithm :=
  {| earnings := earnings a; earnings_universe := u;
     schedule := schedule a; data := data a;
     selected_symbols := selected_symbols a;
     managed_symbols := managed_symbols a;
     months_counter := months_counter a; selection_flag := selection_flag a;
     brokerage := brokerage a; orders := orders a |}.

Definition set_schedule (f : list (list date) → list (list date))
    (a : Algorithm) : Algorithm :=
  {| earnings := earnings a; earnings_universe := earnings_universe a;
     schedule := f (schedule a); data := data a;
     selected_symbols := selected_symbols a;
     managed_symbols := managed_symbols a;
     months_counter := months_counter a; selection_flag := selection_flag a;
     brokerage := brokerage a; orders := orders a |}.

Definition set_data (f : gmap Symbol SymbolData → gmap Symbol SymbolData)
    (a : Algorithm) : Algorithm :=
  {| earnings := earnings a; earnings_universe := earnings_universe a;
     schedule := schedule a; data := f (data a);
     selected_symbols := selected_symbols a;
     managed_symbols := managed_symbols a;
     months_counter := months_counter a; selection_flag := selection_flag a;
     brokerage := brokerage a; orders := orders a |}.

Definition set_selected_symbols (l : list Symbol) (a : Algorithm) : Algorithm :=
  {| earnings := earnings a; earnings_universe := earnings_universe a;
     schedule := schedule a; data := data a;
     selected_symbols := l;
     managed_symbols := managed_symbols a;
     months_counter := months_counter a; selection_flag := selection_flag a;
     brokerage := brokerage a; orders := orders a |}.

Definition set_managed_symbols (l : list ManagedSymbol) (a : Algorithm) : Algorithm :=
  {| earnings := earnings a; earnings_universe := earnings_universe a;
     schedule := schedule a; data := data a;
     selected_symbols := selected_symbols a;
     managed_symbols := l;
     months_counter := months_counter a; selection_flag := selection_flag a;
     brokerage := brokerage a; orders := orders a |}.

Definition set_months_counter (n : Z) (a : Algorithm) : Algorithm :=
  {| earnings := earnings a; earnings_universe := earnings_universe a;
     schedule := schedule a; data := data a;
     selected_symbols := selected_symbols a;
     managed_symbols := managed_symbols a;
     months_counter := n; selection_flag := selection_flag a;
     brokerage := brokerage a; orders := orders a |}.

Definition set_selection_flag (b : bool) (a : Algorithm) : Algorithm :=
  {| earnings := earnings a; earnings_universe := earnings_universe a;
     schedule := schedule a; data := data a;
     selected_symbols := selected_symbols a;
     managed_symbols := managed_symbols a;
     months_counter := months_counter a; selection_flag := b;
     brokerage := brokerage a; orders := orders a |}.

(** An order call: the host acts on it and it is recorded. *)
Definition place (o : Order) (a : Algorithm) : Algorithm :=
  {| earnings := earnings a; earnings_universe := earnings_universe a;
     schedule := schedule a; data := data a;
     selected_symbols := selected_symbols a;
     managed_symbols := managed_symbols a;
     months_counter := months_counter a; selection_flag := selection_flag a;
     brokerage := match o with
                  | OrderSetHoldings s w => SetHoldings (brokerage a) s w
                  | OrderLiquidate s => Liquidate (brokerage a) s
                  end;
     orders := orders a ++ [o] |}.

(** *** The monad of methods of [self] *)

Definition M (A : Type) : Type := Algorithm → outcome A * Algorithm.

#[global] Instance M_ret : MRet M := λ A a st, (Ok a, st).
#[global] Instance M_bind : MBind M := λ A B f m st,
  match m st with
  | (Ok a, st') => f a st'
  | (Raise e, st') => (Raise e, st')
  end.

Definition get : M Algorithm := λ st, (Ok st, st).
Definition modify (f : Algorithm → Algorithm) : M unit := λ st, (Ok (), f st).
Definition raise {A} (e : exn) : M A := λ st, (Raise e, st).
Definition lift {A} (o : outcome A) : M A := λ st, (o, st).

(** [d[key]] on a decoded JSON object. *)
Definition getitem {A} (key : string) (o : option A) : M A :=
  match o with Some a => mret a | None => raise (KeyError key) end.

(** A [for] loop that carries the locals it updates. *)
Fixpoint for_ {A B} (l : list A) (b : B) (body : B → A → M B) : M B :=
  match l with
  | [] => mret b
  | x :: l' => b' ← body b x; for_ l' b' body
  end.

End Algorithm.

(** ** The methods of [PostEarningsAnnouncement] *)

Section Methods.
Context `{Host} (cfg : Config).

(** The body of the inner loop of [LoadEarningsData], with the local
    [earnings_set] it updates. *)
Definition LoadEarningsData_stock (date : date) (earnings_set : gset string)
    (stock_data : stock_data) : M (gset string) :=
  ticker ← getitem "ticker" (ticker stock_data);
  modify (set_earnings (alter (λ l, l ++ [ticker]) date));;
  mret ({[ticker]} ∪ earnings_set).

(** The body of the outer loop, with the locals [days_before_earnings]
    and [earnings_set]. *)
Definition LoadEarningsData_obj (locals : list date * gset string)
    (obj : feed_obj) : M (list date * gset string) :=
  let '(days_before_earnings, earnings_set) := locals in
  date_string ← getitem "date" (obj_date obj);
  date ← lift (match strptime_date date_string with
               | Some d => Ok d
               | None => Raise ValueError
               end);
  modify (set_earnings (<[date := []]>));;
  let days_before_earnings := days_before_earnings ++ [sub_BDay date 5] in
  stocks ← getitem "stocks" (obj_stocks obj);
  earnings_set ← for_ stocks earnings_set (LoadEarningsData_stock date);
  mret (days_before_earnings, earnings_set).

(** [LoadEarningsData], from the decoded feed [json.loads(earnings_data)]. *)
Definition LoadEarningsData (earnings_data_json : list feed_obj) : M unit :=
  modify (set_earnings (λ _, ∅));;
  locals ← for_ earnings_data_json ([], ∅) LoadEarningsData_obj;
  modify (set_earnings_universe locals.2);;
  modify (set_schedule (λ sch, sch ++ [locals.1])).

(** The condition of the comprehension that builds [selected]. *)
Definition selectable (st : Algorithm) (x : CoarseFundamental) : bool :=
  cf_HasFundamentalData x
  && bool_decide (cf_Market x = "usa")
  && bool_decide (Q2Qc (inject_Z 5) < cf_Price x)%Qc
  && bool_decide (Value (cf_Symbol x) ∈ earnings_universe st).

(** Lines 129 to 138: the top quantile of a momentum snapshot, a dict in
    insertion order. *)
Definition select_top_quantile (momentum : list (Symbol * Qc)) : M Universe :=
  if Z.of_nat (length momentum) <? quantile cfg then
    modify (set_selected_symbols []);;
    mret Unchanged
  else
    quantile_ ← lift (Py.int_truediv (Z.of_nat (length momentum)) (quantile cfg));
    let sorted_by_mom := fst <$> Py.sorted snd momentum in
    let top := Py.slice_from (- quantile_) sorted_by_mom in
    modify (set_selected_symbols top);;
    mret (Symbols top).

(** The dict comprehension of line 127. *)
Definition momentum_snapshot (selected : list Symbol) : M (list (Symbol * Qc)) :=
  for_ selected [] (λ momentum symbol,
    st ← get;
    sd ← getitem (Value symbol) (data st !! symbol);
    if is_ready sd then
      p ← lift (performance sd);
      mret (Py.dict_set symbol p momentum)
    else mret momentum).

(** [CoarseSelectionFunction]; [History symbol n] is the list of closes
    the host returns for [self.History(symbol, n, Resolution.Daily)]. *)
Definition CoarseSelectionFunction (History : Symbol → Z → list Qc)
    (coarse : list CoarseFundamental) : M Universe :=
  for_ coarse () (λ _ stock,
    let symbol := cf_Symbol stock in
    st ← get;
    match data st !! symbol with
    | Some _ => modify (set_data (alter (update (cf_AdjustedPrice stock)) symbol))
    | None => mret ()
    end);;
  st ← get;
  if negb (selection_flag st) then mret Unchanged
  else
    modify (set_selection_flag false);;
    let selected := cf_Symbol <$> List.filter (selectable st) coarse in
    for_ selected () (λ _ symbol,
      st ← get;
      match data st !! symbol with
      | Some _ => mret ()
      | None =>
          modify (set_data (<[symbol := data_tools.new (period cfg)]>));;
          match History symbol (period cfg) with
          | [] => mret ()
          | closes =>
              for_ closes () (λ _ close,
                modify (set_data (alter (update close) symbol)))
          end
      end);;
    momentum ← momentum_snapshot selected;
    select_top_quantile momentum.

(** The body of the loop of [DaysBefore]. *)
Definition DaysBefore_body (earnings_date date_to_switch date_to_liquidate : date)
    (symbol : Symbol) : M unit :=
  let ticker := Value symbol in
  st ← get;
  tickers ← getitem "earnings_date" (earnings st !! earnings_date);
  if negb (bool_decide (ticker ∈ tickers)) then mret ()
  else if (Z.of_nat (length (managed_symbols st)) <? managed_symbols_size cfg)
          && negb (Invested (brokerage st) symbol)
          && negb (bool_decide (Price (brokerage st) symbol = 0%Qc))
          && IsTradable (brokerage st) symbol
  then
    w ← lift (Py.truediv (leverage cfg - free_margin cfg) (managed_symbols_size cfg));
    modify (place (OrderSetHoldings symbol w));;
    modify (λ st, set_managed_symbols
                    (managed_symbols st ++
                       [{| symbol := symbol; date_to_switch := date_to_switch;
                           date_to_liquidate := date_to_liquidate |}]) st)
  else mret ().

(** [DaysBefore], at the date [Time] of [self.Time]. *)
Definition DaysBefore (Time : date) : M unit :=
  let earnings_date := add_BDay Time (buyDaysBefore cfg) in
  let date_to_liquidate := add_BDay earnings_date (sellDaysAfter cfg) in
  let date_to_switch := add_BDay earnings_date (switchDaysAfter cfg) in
  st ← get;
  match earnings st !! earnings_date with
  | None => mret ()
  | Some _ =>
      for_ (selected_symbols st) () (λ _ symbol,
        DaysBefore_body earnings_date date_to_switch date_to_liquidate symbol)
  end.

(** The body of the first loop of [OnData]. *)
Definition OnData_body (curr_date : date)
    (managed_symbols_to_delete : list ManagedSymbol)
    (managed_symbol : ManagedSymbol) : M (list ManagedSymbol) :=
  st ← get;
  if (date_to_switch managed_symbol <=? curr_date)
     && (curr_date <? date_to_liquidate managed_symbol)
     && IsLong (brokerage st) (symbol managed_symbol)
  then
    w ← lift (Py.truediv (-1 * (leverage cfg - free_margin cfg))
                (managed_symbols_size cfg));
    modify (place (OrderSetHoldings (symbol managed_symbol) w));;
    mret managed_symbols_to_delete
  else if date_to_liquidate managed_symbol <=? curr_date then
    modify (place (OrderLiquidate (symbol managed_symbol)));;
    mret (managed_symbols_to_delete ++ [managed_symbol])
  else mret managed_symbols_to_delete.

(** [OnData], at the date [curr_date] of [self.Time]. *)
Definition OnData (curr_date : date) : M unit :=
  st ← get;
  managed_symbols_to_delete ← for_ (managed_symbols st) [] (OnData_body curr_date);
  for_ managed_symbols_to_delete () (λ _ managed_symbol,
    st ← get;
    match Py.remove managed_symbol (managed_symbols st) with
    | Some l => modify (set_managed_symbols l)
    | None => raise ValueError
    end).

(** [Selection]. *)
Definition Selection : M unit :=
  st ← get;
  r ← lift (Py.mod_ (months_counter st) (rebalance_period cfg));
  (if r =? 0 then modify (set_selection_flag true) else mret ());;
  modify (λ st, set_months_counter (months_counter st + 1) st).

End Methods.

(** The constants of [Initialize] and the three parameters it reads. *)
Definition Initialize_config (buyDaysBefore sellDaysAfter switchDaysAfter : Z) : Config :=
  {| quantile := 10;
     period := 12 * 21;
     rebalance_period := 3;
     leverage := 3;
     free_margin := 1;
     buyDaysBefore := buyDaysBefore;
     sellDaysAfter := sellDaysAfter;
     switchDaysAfter := switchDaysAfter;
     managed_symbols_size := 30 |}.

(** The attributes as they are before [Initialize]; [b0] is the host's
    brokerage state at start. *)
Definition blank `{Host} (b0 : Brokerage) : Algorithm :=
  {| earnings := ∅; earnings_universe := ∅; schedule := [];
     data := ∅; selected_symbols := []; managed_symbols := [];
     months_counter := 0; selection_flag := false;
     brokerage := b0; orders := [] |}.

(** [Initialize].  [parameter name] is the outcome of
    [int(self.GetParameter(name))]: the integer the parameter holds, or the
    exception [int] raises, [TypeError] on a parameter that is not set and
    [ValueError] on a string that is not an integer literal.  The three
    parameters are read before any of the mutable attributes is assigned.
    The value returned is the record of the attributes that stay
    constant. *)
Definition Initialize `{Host} (parameter : string → outcome Z)
    (earnings_data_json : list feed_obj) : M Config :=
  buyDaysBefore ← lift (parameter "buyDaysBefore");
  sellDaysAfter ← lift (parameter "sellDaysAfter");
  switchDaysAfter ← lift (parameter "switchDaysAfter");
  modify (set_data (λ _, ∅));;
  modify (set_selected_symbols []);;
  modify (set_managed_symbols []);;
  LoadEarningsData earnings_data_json;;
  modify (set_months_counter 0);;
  modify (set_selection_flag true);;
  mret (Initialize_config buyDaysBefore sellDaysAfter switchDaysAfter).

(** ** Events *)

(** What the host can do to a running algorithm: call one of its handlers,
    or change the brokerage state on its own (fills, prices, halts). *)
Inductive event `{Host} : Type :=
  | EvLoadEarningsData (earnings_data_json : list feed_obj)
  | EvCoarseSelection (History : Symbol → Z → list Qc) (coarse : list CoarseFundamental)
  | EvDaysBefore (Time : date)
  | EvOnData (Time : date)
  | EvSelection
  | EvMarket (f : Brokerage → Brokerage).

Definition set_brokerage `{Host} (f : Brokerage → Brokerage) (a : Algorithm) : Algorithm :=
  {| earnings := earnings a; earnings_universe := earnings_universe a;
     schedule := schedule a; data := data a;
     selected_symbols := selected_symbols a;
     managed_symbols := managed_symbols a;
     months_counter := months_counter a; selection_flag := selection_flag a;
     brokerage := f (brokerage a); orders := orders a |}.

Definition handle `{Host} (cfg : Config) (ev : event) : M unit :=
  match ev with
  | EvLoadEarningsData j => LoadEarningsData j
  | EvCoarseSelection h c => CoarseSelectionFunction cfg h c;; mret ()
  | EvDaysBefore t => DaysBefore cfg t
  | EvOnData t => OnData cfg t
  | EvSelection => Selection cfg
  | EvMarket f => modify (set_brokerage f)
  end.

(** The states the algorithm can be in: after [Initialize], then after any
    event, whether its handler returned or raised.  The handlers run with
    the constants [cfg], whatever their values. *)
Inductive reachable `{Host} (cfg : Config) : Algorithm → Prop :=
  | reachable_init b0 parameter j o st :
      Initialize parameter j (blank b0) = (o, st) → reachable cfg st
  | reachable_step st ev o st' :
      reachable cfg st → handle cfg ev st = (o, st') → reachable cfg st'.

(** ** Specification of methods *)

(** [hoare P m Q E]: from a state in [P], [m] either returns [a] in a state
    in [Q a], or raises [e] in a state in [E e]. *)
Definition hoare `{Host} {A} (P : Algorithm → Prop) (m : M A)
    (Q : A → Algorithm → Prop) (E : exn → Algorithm → Prop) : Prop :=
  ∀ st, P st →
    match m st with
    | (Ok a, st') => Q a st'
    | (Raise e, st') => E e st'
    end.

(** [m] keeps [P], returning or raising. *)
Definition preserves `{Host} {A} (P : Algorithm → Prop) (m : M A) : Prop :=
  hoare P m (λ _, P) (λ _, P).

(** ** A simulated host *)

(** Symbols are their tickers.  A target weight fills at once: the holding
    of a symbol is the last weight set for it, and none once liquidated. *)
Module Sim.

Record book : Type := {
  holdings : gmap string Qc;
  prices : gmap string Qc;
  halted : gset string
}.

Definition holding (b : book) (s : string) : Qc := default 0%Qc (holdings b !! s).

#[global] Instance host : Host := {|
  Symbol := string;
  Value := id;
  Brokerage := book;
  Invested b s := negb (bool_decide (holding b s = 0%Qc));
  Price b s := default 0%Qc (prices b !! s);
  IsTradable b s := bool_decide (s ∉ halted b);
  IsLong b s := bool_decide (0 < holding b s)%Qc;
  SetHoldings b s w :=
    {| holdings := <[s := w]> (holdings b); prices := prices b; halted := halted b |};
  Liquidate b s :=
    {| holdings := delete s (holdings b); prices := prices b; halted := halted b |}
|}.

End Sim.

(** What the lifecycle properties assume of a host: a negative target weight
    leaves the position not long, and an order on one symbol does not change
    whether another is invested. *)
Class HostFills `{Host} : Prop := {
  IsLong_SetHoldings_neg b s w : (w < 0)%Qc → IsLong (SetHoldings b s w) s = false;
  Invested_SetHoldings_ne b s s' w : s ≠ s' → Invested (SetHoldings b s' w) s = Invested b s
}.

(** ** Notions used in the statements *)

(** *** The earnings feed *)

(** The date and the tickers a feed object parses to; [None] where
    [LoadEarningsData] raises on it. *)
Definition obj_day (obj : feed_obj) : option date :=
  obj_date obj ≫= strptime_date.

Definition obj_tickers (obj : feed_obj) : option (list string) :=
  obj_stocks obj ≫= mapM ticker.

Definition well_formed (obj : feed_obj) : Prop :=
  is_Some (obj_day obj) ∧ is_Some (obj_tickers obj).

(** The index and the ticker set as the loops of [LoadEarningsData] build
    them from objects that parse. *)
Definition index_obj (E : gmap Z (list string)) (obj : feed_obj) : gmap Z (list string) :=
  match obj_day obj, obj_tickers obj with
  | Some d, Some ts => <[d := ts]> E
  | _, _ => E
  end.

Definition add_tickers (es : gset string) (ts : list string) : gset string :=
  foldl (λ es t, {[t]} ∪ es) es ts.

Definition collect_obj (es : gset string) (obj : feed_obj) : gset string :=
  add_tickers es (default [] (obj_tickers obj)).

(** The two queries of the earnings index: [self.earnings[date]] behind
    its membership test, and [self.earnings_universe]. *)
Definition instruments_on `{Host} (st : Algorithm) (d : date) : list string :=
  default [] (earnings st !! d).

Definition eligible_universe `{Host} (st : Algorithm) : gset string :=
  earnings_universe st.

(** The objects of a feed that bear the date [d]. *)
Definition bearing (d : date) (feed : list feed_obj) : list feed_obj :=
  List.filter (λ obj, bool_decide (obj_day obj = Some d)) feed.

(** What the loops of [LoadEarningsData] keep, returning or raising: the
    ticker universe, and that every date of the index is the date of an
    object of the feed. *)
Definition load_inv `{Host} (feed : list feed_obj) (u : gset string)
    (st : Algorithm) : Prop :=
  earnings_universe st = u
  ∧ ∀ d, is_Some (earnings st !! d) → ∃ obj, obj ∈ feed ∧ obj_day obj = Some d.

(** *** The universe pass on the tracker map alone *)

(** The three loops of [CoarseSelectionFunction] as functions of
    [self.data]: the daily update for one element of [coarse], the warm-up
    of one selected symbol, and the momentum snapshot, a dict in insertion
    order. *)
Definition daily_update `{Host} (D : gmap Symbol SymbolData)
    (stock : CoarseFundamental) : gmap Symbol SymbolData :=
  alter (update (cf_AdjustedPrice stock)) (cf_Symbol stock) D.

Definition warm_up `{Host} (cfg : Config) (History : Symbol → Z → list Qc)
    (D : gmap Symbol SymbolData) (symbol : Symbol) : gmap Symbol SymbolData :=
  match D !! symbol with
  | Some _ => D
  | None =>
      foldl (λ D close, alter (update close) symbol D)
        (<[symbol := data_tools.new (period cfg)]> D)
        (History symbol (period cfg))
  end.

Fixpoint snapshot `{Host} (D : gmap Symbol SymbolData) (selected : list Symbol)
    (momentum : list (Symbol * Qc)) : outcome (list (Symbol * Qc)) :=
  match selected with
  | [] => Ok momentum
  | symbol :: selected' =>
      match D !! symbol with
      | None => Raise (KeyError (Value symbol))
      | Some sd =>
          if is_ready sd then
            match performance sd with
            | Ok p => snapshot D selected' (Py.dict_set symbol p momentum)
            | Raise e => Raise e
            end
          else snapshot D selected' momentum
      end
  end.

(** *** Positions and orders *)

(** The sizing formula [(leverage - free_margin) / managed_symbols_size]. *)
Definition slot_weight (cfg : Config) : Qc :=
  (Q2Qc (inject_Z (leverage cfg - free_margin cfg))
   / Q2Qc (inject_Z (managed_symbols_size cfg)))%Qc.

(** The admission test of [DaysBefore] for a candidate, in a given state. *)
Definition admits `{Host} (cfg : Config) (st : Algorithm) (symbol : Symbol) : bool :=
  (Z.of_nat (length (managed_symbols st)) <? managed_symbols_size cfg)
  && negb (Invested (brokerage st) symbol)
  && negb (bool_decide (Price (brokerage st) symbol = 0%Qc))
  && IsTradable (brokerage st) symbol.

(** The state after a long entry for [symbol] with the given dates. *)
Definition entered `{Host} (cfg : Config) (symbol : Symbol)
    (date_to_switch date_to_liquidate : date) (st : Algorithm) : Algorithm :=
  set_managed_symbols
    (managed_symbols st ++
       [{| symbol := symbol; date_to_switch := date_to_switch;
           date_to_liquidate := date_to_liquidate |}])
    (place (OrderSetHoldings symbol (slot_weight cfg)) st).

(** The second loop of [OnData] on the list alone: [l.remove(x)] for each
    [x] of [xs] in turn; [None] is [ValueError]. *)
Fixpoint remove_each {A} `{EqDecision A} (xs l : list A) : option (list A) :=
  match xs with
  | [] => Some l
  | x :: xs' => match Py.remove x l with
                | Some l' => remove_each xs' l'
                | None => None
                end
  end.

(** The first test of the loop of [OnData]: the position is in its
    switching window and the host reports it long. *)
Definition flip_due `{Host} (curr_date : date) (st : Algorithm) (m : ManagedSymbol) : bool :=
  (date_to_switch m <=? curr_date) && (curr_date <? date_to_liquidate m)
  && IsLong (brokerage st) (symbol m).

(** What one run of [DaysBefore] has added, from [st] to [st'], when it
    is all for symbols other than [s] and [s] is still invested. *)
Definition skipped `{Host} (s : Symbol) (st st' : Algorithm) : Prop :=
  Invested (brokerage st') s = true
  ∧ ∃ new_orders new_managed,
      orders st' = orders st ++ new_orders
      ∧ managed_symbols st' = managed_symbols st ++ new_managed
      ∧ Forall (λ o, ∀ w, o ≠ OrderSetHoldings s w) new_orders
      ∧ Forall (λ m, symbol m ≠ s) new_managed.

(** The order [sorted] ranks by. *)
Definition key_le {A} (key : A → Qc) (a b : A) : Prop := (key a ≤ key b)%Qc.

(** [m] never raises [e]. *)
Definition never_raises `{Host} {A} (e : exn) (m : M A) : Prop :=
  ∀ st, (m st).1 ≠ Raise e.

(** The record [DaysBefore] appends for [symbol] when the earnings date is
    [earnings_date]. *)
Definition entry_of `{Host} (cfg : Config) (earnings_date : date)
    (symbol : Symbol) : ManagedSymbol :=
  {| symbol := symbol;
     date_to_switch := add_BDay earnings_date (switchDaysAfter cfg);
     date_to_liquidate := add_BDay earnings_date (sellDaysAfter cfg) |}.

(** The symbols an order log liquidates, in order. *)
Definition liquidated `{Host} (os : list Order) : list Symbol :=
  omap (λ o, match o with OrderLiquidate s => Some s | _ => None end) os.

(** The target weights an order log sets, in order. *)
Definition targets `{Host} (os : list Order) : list (Symbol * Qc) :=
  omap (λ o, match o with OrderSetHoldings s w => Some (s, w) | _ => None end) os.

(** [n] month starts in a row: [Selection] called [n] times, stopping at
    the first call that raises. *)
Fixpoint Selections `{Host} (cfg : Config) (n : nat) : M unit :=
  match n with
  | O => mret ()
  | S n' => Selection cfg;; Selections cfg n'
  end.

(** The invariant of a managed position. *)
Definition dates_ordered `{Host} (m : ManagedSymbol) : Prop :=
  date_to_switch m ≤ date_to_liquidate m.

(** ** A run on the simulated host *)

(** Ten tickers, one announcement on Monday 2023-01-09, and the
    parameters 5, 5 and 1.  [S3] gained over the lookback window and the
    others did not, so the top quantile is [S3]. *)
Module Demo.

Definition cfg : Config := Initialize_config 5 5 1.

Definition parameter (name : string) : outcome Z :=
  if String.eqb name "buyDaysBefore" then Ok 5
  else if String.eqb name "sellDaysAfter" then Ok 5
  else if String.eqb name "switchDaysAfter" then Ok 1
  else Raise TypeError.

Definition tickers : list string :=
  ["S0"; "S1"; "S2"; "S3"; "S4"; "S5"; "S6"; "S7"; "S8"; "S9"].

Definition ten : Qc := Q2Qc (inject_Z 10).
Definition twenty : Qc := Q2Qc (inject_Z 20).

Definition book0 : Sim.book :=
  {| Sim.holdings := ∅;
     Sim.prices := list_to_map ((λ t, (t, ten)) <$> tickers);
     Sim.halted := ∅ |}.

Definition feed : list feed_obj :=
  [{| obj_date := Some "2023-01-09";
      obj_stocks := Some ((λ t, {| ticker := Some t |}) <$> tickers) |}].

Definition coarse : list (@CoarseFundamental Sim.host) :=
  (λ t : string,
     {| cf_Symbol := (t : @Symbol Sim.host); cf_AdjustedPrice := ten;
        cf_HasFundamentalData := true; cf_Market := "usa";
        cf_Price := ten |}) <$> tickers.

Definition history (s : string) (n : Z) : list Qc :=
  replicate (Z.to_nat n - 1) ten ++ [if String.eqb s "S3" then twenty else ten].

(** 2023-01-02, 2023-01-10, 2023-01-11 and 2023-01-16. *)
Definition st0 : @Algorithm Sim.host := (Initialize parameter feed (blank book0)).2.
Definition st1 := (handle cfg (EvCoarseSelection history coarse) st0).2.
Definition st2 := (handle cfg (EvDaysBefore 738522) st1).2.
Definition st3 := (handle cfg (EvOnData 738530) st2).2.
Definition st4 := (handle cfg (EvOnData 738531) st3).2.
Definition st5 := (handle cfg (EvOnData 738536) st4).2.

Definition position : @ManagedSymbol Sim.host :=
  {| symbol := "S3"; date_to_switch := 738530; date_to_liquidate := 738536 |}.

(** A snapshot where [S3] and [S7] tie for the highest score, and one
    too short to rank. *)
Definition momentum : list (@Symbol Sim.host * Qc) :=
  (λ t : string, ((t : @Symbol Sim.host),
                  if String.eqb t "S3" || String.eqb t "S7" then 1%Qc else 0%Qc))
  <$> tickers.

Definition momentum_short : list (@Symbol Sim.host * Qc) := take 3 momentum.

(** A feed whose second object has no date. *)
Definition feed_bad : list feed_obj :=
  [{| obj_date := Some "2023-02-01";
      obj_stocks := Some [{| ticker := Some "S1" |}] |};
   {| obj_date := None; obj_stocks := Some [] |}].

(** A feed whose first and third objects bear the same date. *)
Definition feed_dup : list feed_obj :=
  [{| obj_date := Some "2023-01-09";
      obj_stocks := Some [{| ticker := Some "S0" |}; {| ticker := Some "S1" |}] |};
   {| obj_date := Some "2023-01-10";
      obj_stocks := Some [{| ticker := Some "S2" |}] |};
   {| obj_date := Some "2023-1-9";
      obj_stocks := Some [{| ticker := Some "S3" |}] |}].

(** A feed with one announcement, dated on Saturday 2023-01-07, and the
    state after the first selection with that feed loaded. *)
Definition feed_weekend : list feed_obj :=
  [{| obj_date := Some "2023-01-07";
      obj_stocks := Some [{| ticker := Some "S3" |}] |}].

Definition st_weekend : @Algorithm Sim.host :=
  (LoadEarningsData feed_weekend st1).2.

(** The momentum snapshot of the ten tickers after the first selection. *)
Definition snapshot_now : list (@Symbol Sim.host * Qc) :=
  match (momentum_snapshot (tickers : list (@Symbol Sim.host)) st1).1 with
  | Ok m => m
  | Raise _ => []
  end.

(** A configuration with no capacity. *)
Definition cfg_no_capacity : Config :=
  {| quantile := 10; period := 252; rebalance_period := 3; leverage := 3;
     free_margin := 1; buyDaysBefore := 5; sellDaysAfter := 5;
     switchDaysAfter := 1; managed_symbols_size := 0 |}.

End Demo.

(** * Properties *)

(** ** Calendar *)

Example strptime_padded : strptime_date "2023-01-09" = Some 738529.
Proof. reflexivity. Qed.
Example strptime_unpadded : strptime_date "2023-1-9" = Some 738529.
Proof. reflexivity. Qed.
Example strptime_leap : strptime_date "2024-02-29" = Some 738945.
Proof. reflexivity. Qed.
Example strptime_no_such_day : strptime_date "2023-02-29" = None.
Proof. reflexivity. Qed.
Example strptime_no_such_month : strptime_date "2023-13-01" = None.
Proof. reflexivity. Qed.
Example strptime_trailing : strptime_date "2023-01-35" = None.
Proof. reflexivity. Qed.
Example weekday_monday : weekday 738529 = 0.
Proof. reflexivity. Qed.
Example BDay_week : add_BDay 738522 5 = 738529.
Proof. reflexivity. Qed.
Example BDay_saturday_rolls : add_BDay 738527 0 = 738529 ∧ add_BDay 738527 5 = 738533.
Proof. split; reflexivity. Qed.
Example BDay_back : sub_BDay 738529 5 = 738522.
Proof. reflexivity. Qed.


(** ** Rules for [hoare] *)

Section Rules.
Context `{Host}.
Implicit Types (P : Algorithm → Prop) (E : exn → Algorithm → Prop).

Lemma hoare_ret {A} P (a : A) (Q : A → Algorithm → Prop) E :
  (∀ st, P st → Q a st) → hoare P (mret a) Q E.
Proof. intros HQ st HP. by apply HQ. Qed.

Lemma hoare_bind {A B} P (m : M A) (f : A → M B) Q1 (Q : B → Algorithm → Prop) E :
  hoare P m Q1 E → (∀ a, hoare (Q1 a) (f a) Q E) → hoare P (m ≫= f) Q E.
Proof.
  intros Hm Hf st HP. specialize (Hm st HP).
  unfold mbind, M_bind. destruct (m st) as [[a|e] st1]; [|done].
  by apply Hf.
Qed.

Lemma hoare_get P (Q : Algorithm → Algorithm → Prop) E :
  (∀ st, P st → Q st st) → hoare P get Q E.
Proof. intros HQ st HP. by apply HQ. Qed.

Lemma hoare_modify P f (Q : unit → Algorithm → Prop) E :
  (∀ st, P st → Q () (f st)) → hoare P (modify f) Q E.
Proof. intros HQ st HP. by apply HQ. Qed.

Lemma hoare_raise {A} P e (Q : A → Algorithm → Prop) E :
  (∀ st, P st → E e st) → hoare P (raise e) Q E.
Proof. intros HE st HP. by apply HE. Qed.

Lemma hoare_lift {A} P (o : outcome A) (Q : A → Algorithm → Prop) E :
  (∀ st, P st → match o with Ok a => Q a st | Raise e => E e st end) →
  hoare P (lift o) Q E.
Proof. intros HQ st HP. specialize (HQ st HP). unfold lift. by destruct o. Qed.

Lemma hoare_getitem {A} P key (o : option A) (Q : A → Algorithm → Prop) E :
  (∀ st, P st → match o with Some a => Q a st | None => E (KeyError key) st end) →
  hoare P (getitem key o) Q E.
Proof. intros HQ st HP. specialize (HQ st HP). unfold getitem. by destruct o. Qed.

Lemma hoare_for {A B} (I : B → Algorithm → Prop) E (l : list A) b (body : B → A → M B) :
  (∀ b x, x ∈ l → hoare (I b) (body b x) I E) →
  hoare (I b) (for_ l b body) I E.
Proof.
  revert b. induction l as [|x l IH]; intros b Hbody; simpl.
  - by apply hoare_ret.
  - eapply hoare_bind.
    + apply Hbody. by left.
    + intros b'. apply IH. intros b'' y Hy. apply Hbody. by right.
Qed.

Lemma for_cons {A B} (x : A) (l : list A) (b : B) (body : B → A → M B) st :
  for_ (x :: l) b body st =
    match body b x st with
    | (Ok b', st') => for_ l b' body st'
    | (Raise e, st') => (Raise e, st')
    end.
Proof. done. Qed.

Lemma hoare_run {A} P (m : M A) Q E st o st' :
  hoare P m Q E → P st → m st = (o, st') →
  match o with Ok a => Q a st' | Raise e => E e st' end.
Proof. intros Hm HP Heq. specialize (Hm st HP). by rewrite Heq in Hm. Qed.

(** A loop whose body keeps [P] keeps [P]. *)
Lemma preserves_for {A B} P (l : list A) (b : B) (body : B → A → M B) :
  (∀ b x, x ∈ l → preserves P (body b x)) → preserves P (for_ l b body).
Proof. intros Hbody. apply (hoare_for (λ _, P) (λ _, P)). exact Hbody. Qed.

End Rules.

Section Preserves.
Context `{Host}.
Implicit Types (P : Algorithm → Prop).

Lemma preserves_ret {A} P (a : A) : preserves P (mret a).
Proof. by apply hoare_ret. Qed.

Lemma preserves_bind {A B} P (m : M A) (f : A → M B) :
  preserves P m → (∀ a, preserves P (f a)) → preserves P (m ≫= f).
Proof. intros Hm Hf. by apply (hoare_bind P m f (λ _, P)). Qed.

Lemma preserves_get P : preserves P get.
Proof. by apply hoare_get. Qed.

Lemma preserves_modify P f : (∀ st, P st → P (f st)) → preserves P (modify f).
Proof. intros Hf. by apply hoare_modify. Qed.

Lemma preserves_raise {A} P e : preserves P (raise (A:=A) e).
Proof. by apply hoare_raise. Qed.

Lemma preserves_lift {A} P (o : outcome A) : preserves P (lift o).
Proof. apply hoare_lift. intros st HP. by destruct o. Qed.

Lemma preserves_getitem {A} P key (o : option A) : preserves P (getitem key o).
Proof. apply hoare_getitem. intros st HP. by destruct o. Qed.

Lemma preserves_run {A} P (m : M A) st o st' :
  preserves P m → P st → m st = (o, st') → P st'.
Proof. intros Hm HP Heq. pose proof (hoare_run _ _ _ _ _ _ _ Hm HP Heq). by destruct o. Qed.

End Preserves.

(** Reduces [preserves P m] to one goal for each [modify] in [m]. *)
Ltac preserves_step :=
  lazymatch goal with
  | |- preserves _ (mret _) => apply preserves_ret
  | |- preserves _ get => apply preserves_get
  | |- preserves _ (raise _) => apply preserves_raise
  | |- preserves _ (lift _) => apply preserves_lift
  | |- preserves _ (getitem _ _) => apply preserves_getitem
  | |- preserves _ (_ ≫= _) => apply preserves_bind; [|intros ?]
  | |- preserves _ (for_ _ _ _) => apply preserves_for; intros ? ? _
  | |- preserves _ (match ?x with _ => _ end) => destruct x eqn:?
  | |- preserves _ (match ?x with _ => _ end _) => destruct x; cbv beta iota
  | |- preserves _ (modify _) => apply preserves_modify
  end.

Ltac preserves_go := repeat preserves_step.

(** ** The managed set *)

Section Managed.
Context `{Host} (cfg : Config).
Implicit Types (P : list ManagedSymbol → Prop).

Lemma LoadEarningsData_managed P j :
  preserves (λ st, P (managed_symbols st)) (LoadEarningsData j).
Proof.
  unfold LoadEarningsData, LoadEarningsData_obj, LoadEarningsData_stock.
  preserves_go; done.
Qed.

Lemma select_top_quantile_managed P momentum :
  preserves (λ st, P (managed_symbols st)) (select_top_quantile cfg momentum).
Proof. unfold select_top_quantile. preserves_go; done. Qed.

Lemma CoarseSelectionFunction_managed P h coarse :
  preserves (λ st, P (managed_symbols st)) (CoarseSelectionFunction cfg h coarse).
Proof.
  unfold CoarseSelectionFunction, momentum_snapshot.
  preserves_go; try done. apply select_top_quantile_managed.
Qed.

Lemma Selection_managed P :
  preserves (λ st, P (managed_symbols st)) (Selection cfg).
Proof. unfold Selection. preserves_go; done. Qed.

End Managed.

(** Unfolds the monad on a straight-line method applied to a state. *)
Ltac run_m :=
  unfold mbind, M_bind, get, getitem, lift, modify, raise, mret, M_ret in *;
  simpl in *.

(** ** Business days *)

Lemma weekday_range d : 0 ≤ weekday d ≤ 6.
Proof. unfold weekday. pose proof (Z.mod_pos_bound (d + 6) 7). lia. Qed.

Lemma add_BDay_mono d m n : m ≤ n → add_BDay d m ≤ add_BDay d n.
Proof.
  intros Hmn. unfold add_BDay, adjust_ndays.
  pose proof (weekday_range d) as Hw.
  generalize dependent (weekday d). intros w Hw.
  pose proof (Z.div_mod m 5 ltac:(lia)) as Hm.
  pose proof (Z.mod_pos_bound m 5 ltac:(lia)) as Hm'.
  pose proof (Z.div_mod n 5 ltac:(lia)) as Hn.
  pose proof (Z.mod_pos_bound n 5 ltac:(lia)) as Hn'.
  generalize dependent (m / 5). generalize dependent (n / 5).
  generalize dependent (m mod 5). generalize dependent (n mod 5).
  intros rn Hrn rm Hrm qn Hqn qm Hqm.
  destruct (Z.leb_spec m 0), (Z.leb_spec n 0), (Z.ltb_spec 4 w); simpl;
  repeat match goal with
         | |- context [?a <=? ?b] => destruct (Z.leb_spec a b)
         | |- context [?a <? ?b] => destruct (Z.ltb_spec a b)
         | |- context [?a =? ?b] => destruct (Z.eqb_spec a b)
         end; simpl; lia.
Qed.

(** ** [DaysBefore] *)

Section DaysBefore.
Context `{Host} (cfg : Config).

Lemma truediv_slot_weight :
  managed_symbols_size cfg ≠ 0 →
  Py.truediv (leverage cfg - free_margin cfg) (managed_symbols_size cfg)
  = Ok (slot_weight cfg).
Proof.
  intros Hn. unfold Py.truediv.
  destruct (Z.eqb_spec (managed_symbols_size cfg) 0); done.
Qed.

(** The loop body, as one case distinction. *)
Lemma DaysBefore_body_eq ed ds dl symbol st tickers :
  earnings st !! ed = Some tickers →
  DaysBefore_body cfg ed ds dl symbol st =
    if bool_decide (Value symbol ∈ tickers) && admits cfg st symbol
    then (Ok (), entered cfg symbol ds dl st)
    else (Ok (), st).
Proof.
  intros Hed. unfold DaysBefore_body, admits. run_m. rewrite Hed.
  destruct (bool_decide (Value symbol ∈ tickers)); simpl; [|done].
  destruct (Z.ltb_spec (Z.of_nat (length (managed_symbols st)))
              (managed_symbols_size cfg)) as [Hlt|Hge]; simpl; [|done].
  rewrite truediv_slot_weight by lia.
  repeat (case_match; simpl; try done).
Qed.

(** A property of the managed set that an entry below capacity keeps is
    kept by [DaysBefore]. *)
Lemma DaysBefore_body_managed (P : list ManagedSymbol → Prop) ed ds dl symbol :
  (∀ l, P l → Z.of_nat (length l) < managed_symbols_size cfg →
        P (l ++ [{| symbol := symbol; date_to_switch := ds;
                    date_to_liquidate := dl |}])) →
  preserves (λ st, P (managed_symbols st)) (DaysBefore_body cfg ed ds dl symbol).
Proof.
  intros HP st Hst.
  destruct (earnings st !! ed) as [tickers|] eqn:Hed.
  - rewrite (DaysBefore_body_eq _ _ _ _ _ tickers) by done.
    destruct (bool_decide _ && admits cfg st symbol) eqn:Hc; [|done].
    simpl. apply HP; [done|].
    unfold admits in Hc. apply andb_prop in Hc as [_ Hc].
    repeat (apply andb_prop in Hc as [Hc _]). lia.
  - unfold DaysBefore_body. run_m. by rewrite Hed.
Qed.

Lemma DaysBefore_managed (P : list ManagedSymbol → Prop) Time :
  (∀ l symbol, P l → Z.of_nat (length l) < managed_symbols_size cfg →
     P (l ++ [{| symbol := symbol;
                 date_to_switch :=
                   add_BDay (add_BDay Time (buyDaysBefore cfg)) (switchDaysAfter cfg);
                 date_to_liquidate :=
                   add_BDay (add_BDay Time (buyDaysBefore cfg)) (sellDaysAfter cfg) |}])) →
  preserves (λ st, P (managed_symbols st)) (DaysBefore cfg Time).
Proof.
  intros HP. unfold DaysBefore.
  apply preserves_bind; [apply preserves_get|]. intros st.
  case_match; [|apply preserves_ret].
  apply preserves_for. intros [] symbol _.
  apply DaysBefore_body_managed. intros ms Hms Hlen. by apply HP.
Qed.

(** The loop of [DaysBefore] over [l], from a state whose index lists
    [tickers] for the earnings date: it returns; what it enters is a
    sublist of [l], all announcing; records and orders grow in step. *)
Lemma DaysBefore_loop ed tickers l : ∀ st,
  earnings st !! ed = Some tickers →
  ∃ new st',
    for_ l () (λ _ symbol,
      DaysBefore_body cfg ed (add_BDay ed (switchDaysAfter cfg))
        (add_BDay ed (sellDaysAfter cfg)) symbol) st = (Ok (), st')
    ∧ sublist new l
    ∧ Forall (λ s, Value s ∈ tickers) new
    ∧ managed_symbols st' = managed_symbols st ++ (entry_of cfg ed <$> new)
    ∧ orders st' = orders st
                   ++ ((λ s, OrderSetHoldings s (slot_weight cfg)) <$> new)
    ∧ (new = [] → st' = st).
Proof.
  induction l as [|symbol l IH]; intros st Hed.
  - exists [], st. simpl. by rewrite !app_nil_r.
  - rewrite for_cons, (DaysBefore_body_eq _ _ _ _ _ tickers) by done.
    destruct (bool_decide (Value symbol ∈ tickers)) eqn:Hin; simpl.
    + destruct (admits cfg st symbol) eqn:Hadm.
      * destruct (IH (entered cfg symbol (add_BDay ed (switchDaysAfter cfg))
                        (add_BDay ed (sellDaysAfter cfg)) st) Hed)
          as (new & st' & -> & Hsub & Hall & Hm & Ho & _).
        exists (symbol :: new), st'. split; [done|].
        split; [by apply sublist_skip|].
        split; [constructor; [by apply bool_decide_eq_true in Hin|done]|].
        split; [rewrite Hm; simpl; by rewrite <- app_assoc|].
        split; [rewrite Ho; simpl; by rewrite <- app_assoc|done].
      * destruct (IH st Hed) as (new & st' & -> & Hsub & Hall & Hm & Ho & Hnil).
        exists new, st'. repeat split; try done. by apply sublist_cons.
    + destruct (IH st Hed) as (new & st' & -> & Hsub & Hall & Hm & Ho & Hnil).
      exists new, st'. repeat split; try done. by apply sublist_cons.
Qed.

End DaysBefore.

(** ** Rationals *)

Lemma Qc_of_Z_opp (x : Z) : Q2Qc (inject_Z (-1 * x)) = (- Q2Qc (inject_Z x))%Qc.
Proof.
  apply Qc_is_canon. simpl. rewrite !Qred_correct.
  unfold Qeq, inject_Z, Qopp. simpl. lia.
Qed.



Lemma truediv_flip cfg :
  managed_symbols_size cfg ≠ 0 →
  Py.truediv (-1 * (leverage cfg - free_margin cfg)) (managed_symbols_size cfg)
  = Ok (- slot_weight cfg)%Qc.
Proof.
  intros Hn. unfold Py.truediv, slot_weight.
  destruct (Z.eqb_spec (managed_symbols_size cfg) 0); [done|].
  f_equal. rewrite Qc_of_Z_opp. unfold Qcdiv. ring.
Qed.

(** ** [list.remove] *)

Lemma remove_sublist {A} `{EqDecision A} (x : A) l l' :
  Py.remove x l = Some l' → sublist l' l.
Proof.
  revert l'. induction l as [|y l IH]; intros l'; simpl; [done|].
  case_decide.
  - intros [= <-]. by apply sublist_cons.
  - destruct (Py.remove x l) as [l0|]; simpl; [|done].
    intros [= <-]. apply sublist_skip. by apply IH.
Qed.

(** Removing, one after the other, the elements that satisfy [p] leaves
    those that do not. *)
Lemma remove_each_skip {A} `{EqDecision A} (p : A → bool) (y : A) xs l :
  p y = false → Forall (λ x, p x = true) xs →
  remove_each xs (y :: l) = cons y <$> remove_each xs l.
Proof.
  intros Hy. revert l. induction xs as [|x xs IH]; intros l Hxs; simpl; [done|].
  inversion_clear Hxs as [|? ? Hx Hxs'].
  case_decide as Hyx; [congruence|].
  destruct (Py.remove x l) as [l'|]; simpl; [|done]. by apply IH.
Qed.

Lemma remove_each_filter {A} `{EqDecision A} (p : A → bool) (l : list A) :
  remove_each (List.filter p l) l = Some (List.filter (λ x, negb (p x)) l).
Proof.
  induction l as [|y l IH]; simpl; [done|].
  destruct (p y) eqn:Hy; simpl.
  - by rewrite decide_True.
  - rewrite (remove_each_skip p) by (done || (apply Forall_forall; intros x Hx;
      apply list_elem_of_In, filter_In in Hx; tauto)).
    by rewrite IH.
Qed.

(** ** [OnData] *)

Section OnData.
Context `{Host} (cfg : Config).

(** The loop body, as one case distinction. *)
Lemma OnData_body_eq curr del m st :
  managed_symbols_size cfg ≠ 0 →
  OnData_body cfg curr del m st =
    if flip_due curr st m
    then (Ok del, place (OrderSetHoldings (symbol m) (- slot_weight cfg)%Qc) st)
    else if date_to_liquidate m <=? curr
    then (Ok (del ++ [m]), place (OrderLiquidate (symbol m)) st)
    else (Ok del, st).
Proof.
  intros Hn. unfold OnData_body, flip_due, mbind, M_bind, get, lift, modify, mret, M_ret.
  rewrite truediv_flip by done.
  by repeat case_match.
Qed.

Lemma OnData_body_managed (P : list ManagedSymbol → Prop) curr del m :
  preserves (λ st, P (managed_symbols st)) (OnData_body cfg curr del m).
Proof. unfold OnData_body. preserves_go; done. Qed.

Lemma OnData_remove_managed (P : list ManagedSymbol → Prop) (m : ManagedSymbol) :
  (∀ l l', sublist l' l → P l → P l') →
  preserves (λ st, P (managed_symbols st))
    (st ← get;
     match Py.remove m (managed_symbols st) with
     | Some l => modify (set_managed_symbols l)
     | None => raise ValueError
     end).
Proof.
  intros HP st Hst. run_m.
  destruct (Py.remove m (managed_symbols st)) as [l|] eqn:Hr; simpl; [|done].
  eapply HP; [|done]. by eapply remove_sublist.
Qed.

(** A property of the managed set that removals keep is kept by
    [OnData], returning or raising. *)
Lemma OnData_managed (P : list ManagedSymbol → Prop) curr :
  (∀ l l', sublist l' l → P l → P l') →
  preserves (λ st, P (managed_symbols st)) (OnData cfg curr).
Proof.
  intros HP. unfold OnData.
  apply preserves_bind; [apply preserves_get|]. intros st.
  apply preserves_bind.
  - apply preserves_for. intros del m _. apply OnData_body_managed.
  - intros del. apply preserves_for. intros [] m _.
    by apply OnData_remove_managed.
Qed.

(** The first loop marks exactly the positions whose liquidation date
    has come, and leaves the managed set as it is. *)
Lemma OnData_mark curr l : ∀ del st,
  managed_symbols_size cfg ≠ 0 →
  ∃ st', for_ l del (OnData_body cfg curr) st
         = (Ok (del ++ List.filter (λ m, date_to_liquidate m <=? curr) l), st')
         ∧ managed_symbols st' = managed_symbols st.
Proof.
  induction l as [|m l IH]; intros del st Hn; simpl.
  - exists st. by rewrite app_nil_r.
  - unfold mbind, M_bind. rewrite OnData_body_eq by done.
    unfold flip_due.
    destruct (Z.leb_spec (date_to_liquidate m) curr) as [Hl|Hl].
    + replace (curr <? date_to_liquidate m) with false by lia.
      rewrite andb_false_r. simpl.
      destruct (IH (del ++ [m]) (place (OrderLiquidate (symbol m)) st) Hn)
        as (st' & -> & Hst').
      exists st'. by rewrite <- app_assoc.
    + destruct (_ && _ && _).
      * destruct (IH del (place (OrderSetHoldings (symbol m) (- slot_weight cfg)%Qc) st) Hn)
          as (st' & -> & Hst'). by exists st'.
      * destruct (IH del st Hn) as (st' & -> & Hst'). by exists st'.
Qed.

(** The second loop is [remove_each] on the managed set. *)
Lemma OnData_sweep xs : ∀ st l',
  remove_each xs (managed_symbols st) = Some l' →
  for_ xs () (λ _ managed_symbol,
    st ← get;
    match Py.remove managed_symbol (managed_symbols st) with
    | Some l => modify (set_managed_symbols l)
    | None => raise ValueError
    end) st = (Ok (), set_managed_symbols l' st).
Proof.
  induction xs as [|x xs IH]; intros st l'; simpl.
  - intros [= <-]. by destruct st.
  - run_m. destruct (Py.remove x (managed_symbols st)) as [l|]; [|done].
    intros Hr. by rewrite (IH (set_managed_symbols l st) l').
Qed.

(** [OnData] returns, and keeps exactly the positions whose liquidation
    date is still ahead. *)
Lemma OnData_eq curr st :
  managed_symbols_size cfg ≠ 0 →
  ∃ st', OnData cfg curr st = (Ok (), st')
         ∧ managed_symbols st'
           = List.filter (λ m, negb (date_to_liquidate m <=? curr)) (managed_symbols st).
Proof.
  intros Hn. unfold OnData. unfold mbind at 1, M_bind at 1, get.
  unfold mbind, M_bind.
  destruct (OnData_mark curr (managed_symbols st) [] st Hn) as (st1 & -> & Hst1).
  simpl. eexists. split.
  - apply OnData_sweep. rewrite Hst1. apply remove_each_filter.
  - done.
Qed.

End OnData.

(** ** Invariants of the managed set *)

Lemma Forall_sublist {A} (P : A → Prop) (l l' : list A) :
  sublist l' l → Forall P l → Forall P l'.
Proof.
  induction 1 as [|x l1 l2 _ IH|x l1 l2 _ IH]; intros Hl; [done|..].
  - inversion_clear Hl. constructor; auto.
  - inversion_clear Hl. auto.
Qed.

Section Reachable.
Context `{Host} (cfg : Config).

Lemma Initialize_managed parameter j b0 o st :
  Initialize parameter j (blank b0) = (o, st) → managed_symbols st = [].
Proof.
  intros Hrun.
  eapply (preserves_run (λ st, managed_symbols st = []) _ (blank b0));
    [|done|exact Hrun].
  unfold Initialize.
  repeat (apply preserves_bind;
          [first [apply preserves_lift
                 |by apply preserves_modify
                 |apply (LoadEarningsData_managed (λ l, l = []))]
          |intros ?]).
  apply preserves_ret.
Qed.

(** Any property of the managed set that holds when it is empty, that
    removals keep and that an entry below capacity keeps, holds in every
    reachable state. *)
Lemma reachable_managed (P : list ManagedSymbol → Prop) :
  P [] →
  (∀ l l', sublist l' l → P l → P l') →
  (∀ l symbol Time, P l → Z.of_nat (length l) < managed_symbols_size cfg →
     P (l ++ [{| symbol := symbol;
                 date_to_switch :=
                   add_BDay (add_BDay Time (buyDaysBefore cfg)) (switchDaysAfter cfg);
                 date_to_liquidate :=
                   add_BDay (add_BDay Time (buyDaysBefore cfg)) (sellDaysAfter cfg) |}])) →
  ∀ st, reachable cfg st → P (managed_symbols st).
Proof.
  intros Hnil Hsub Happ st Hreach.
  induction Hreach as [b0 parameter j o st Hinit|st ev o st' _ IH Hstep].
  - by rewrite (Initialize_managed _ _ _ _ _ Hinit).
  - revert Hstep. apply preserves_run with (P := λ st, P (managed_symbols st)); [|done].
    destruct ev; simpl.
    + apply LoadEarningsData_managed.
    + apply preserves_bind; [apply CoarseSelectionFunction_managed|].
      intros _. apply preserves_ret.
    + apply DaysBefore_managed. intros l symbol Hl Hlen. by apply Happ.
    + by apply OnData_managed.
    + apply Selection_managed.
    + by apply preserves_modify.
Qed.

(** At capacity [DaysBefore] does nothing at all. *)
Lemma DaysBefore_at_capacity Time st :
  managed_symbols_size cfg ≤ Z.of_nat (length (managed_symbols st)) →
  DaysBefore cfg Time st = (Ok (), st).
Proof.
  intros Hfull. unfold DaysBefore. unfold mbind at 1, M_bind at 1, get.
  destruct (earnings st !! _) as [tickers|] eqn:Hed; [|done].
  induction (selected_symbols st) as [|symbol l IH]; simpl; [done|].
  unfold mbind, M_bind. rewrite (DaysBefore_body_eq _ _ _ _ _ _ tickers) by done.
  unfold admits. replace (_ <? _) with false by lia.
  rewrite andb_false_r. exact IH.
Qed.

End Reachable.

(** C3: the managed set is bounded by [managed_symbols_size].  In every
    reachable state its size is at most the capacity; an iteration of
    [DaysBefore] that changes the managed set started strictly below the
    capacity and added one position; at capacity [DaysBefore] creates
    nothing and issues nothing. *)
Theorem managed_set_bounded `{Host} (cfg : Config) (st : Algorithm) :
  0 ≤ managed_symbols_size cfg →
  reachable cfg st →
  Z.of_nat (length (managed_symbols st)) ≤ managed_symbols_size cfg
  ∧ (∀ ed ds dl symbol o st',
       DaysBefore_body cfg ed ds dl symbol st = (o, st') →
       managed_symbols st' ≠ managed_symbols st →
       Z.of_nat (length (managed_symbols st)) < managed_symbols_size cfg
       ∧ length (managed_symbols st') = S (length (managed_symbols st)))
  ∧ (∀ Time,
       Z.of_nat (length (managed_symbols st)) = managed_symbols_size cfg →
       DaysBefore cfg Time st = (Ok (), st)).
Proof.
  intros Hsize Hreach. split; [|split].
  - revert st Hreach.
    apply (reachable_managed cfg (λ l, Z.of_nat (length l) ≤ managed_symbols_size cfg)).
    + simpl. lia.
    + intros l l' Hsub Hl. apply sublist_length in Hsub. lia.
    + intros l symbol Time Hl Hlt. rewrite length_app. simpl. lia.
  - intros ed ds dl symbol o st' Hbody Hne.
    destruct (earnings st !! ed) as [tickers|] eqn:Hed.
    + rewrite (DaysBefore_body_eq _ _ _ _ _ _ tickers) in Hbody by done.
      destruct (bool_decide _ && admits cfg st symbol) eqn:Hc;
        injection Hbody as <- <-; [|done].
      split.
      * unfold admits in Hc. apply andb_prop in Hc as [_ Hc].
        repeat (apply andb_prop in Hc as [Hc _]). lia.
      * simpl. rewrite length_app. simpl. lia.
    + unfold DaysBefore_body in Hbody. run_m. rewrite Hed in Hbody.
      by injection Hbody as <- <-.
  - intros Time Hfull. apply DaysBefore_at_capacity. lia.
Qed.

(** C5: every managed position switches no later than it liquidates, as
    long as [switchDaysAfter <= sellDaysAfter]: both dates are business-day
    offsets of one earnings date, and the offset is monotone. *)
Theorem managed_dates_ordered `{Host} (cfg : Config) (st : Algorithm) :
  switchDaysAfter cfg ≤ sellDaysAfter cfg →
  reachable cfg st →
  Forall dates_ordered (managed_symbols st).
Proof.
  intros Hoff Hreach. revert st Hreach.
  apply (reachable_managed cfg (Forall dates_ordered)).
  - constructor.
  - intros l l'. apply Forall_sublist.
  - intros l symbol Time Hl _. apply Forall_app. split; [done|].
    constructor; [|constructor]. unfold dates_ordered. simpl.
    by apply add_BDay_mono.
Qed.

(** ** Orders *)

(** The first loop of [OnData] with a capacity that is not zero: the
    target weights it sets are one for each position of a sublist of [l],
    each in its switching window, each at the negated slot weight. *)
Lemma OnData_mark_flips `{Host} (cfg : Config) curr l : ∀ del st,
  managed_symbols_size cfg ≠ 0 →
  ∃ del' st' new flipped,
    for_ l del (OnData_body cfg curr) st = (Ok del', st')
    ∧ orders st' = orders st ++ new
    ∧ sublist flipped l
    ∧ Forall (λ m, date_to_switch m ≤ curr < date_to_liquidate m) flipped
    ∧ targets new = (λ m, (symbol m, (- slot_weight cfg)%Qc)) <$> flipped.
Proof.
  induction l as [|m l IH]; intros del st Hnz.
  - exists del, st, [], []. rewrite app_nil_r. by repeat split.
  - rewrite for_cons, OnData_body_eq by done.
    destruct (flip_due curr st m) eqn:Hflip.
    + destruct (IH del (place (OrderSetHoldings (symbol m) (- slot_weight cfg)%Qc) st) Hnz)
        as (del' & st' & new & flipped & -> & Ho & Hsub & Hwin & Ht).
      exists del', st', (OrderSetHoldings (symbol m) (- slot_weight cfg)%Qc :: new),
        (m :: flipped).
      split; [done|]. split; [rewrite Ho; simpl; by rewrite <- app_assoc|].
      split; [by apply sublist_skip|].
      split; [|simpl; f_equal; exact Ht].
      constructor; [|done]. unfold flip_due in Hflip.
      apply andb_prop in Hflip as [[? ?]%andb_prop _]. lia.
    + destruct (date_to_liquidate m <=? curr).
      * destruct (IH (del ++ [m]) (place (OrderLiquidate (symbol m)) st) Hnz)
          as (del' & st' & new & flipped & -> & Ho & Hsub & Hwin & Ht).
        exists del', st', (OrderLiquidate (symbol m) :: new), flipped.
        split; [done|]. split; [rewrite Ho; simpl; by rewrite <- app_assoc|].
        split; [by apply sublist_cons|done].
      * destruct (IH del st Hnz)
          as (del' & st' & new & flipped & -> & Ho & Hsub & Hwin & Ht).
        exists del', st', new, flipped.
        split; [done|]. split; [done|]. split; [by apply sublist_cons|done].
Qed.

(** The same over a whole [OnData]: the second loop issues nothing. *)
Lemma OnData_flips `{Host} (cfg : Config) curr st :
  managed_symbols_size cfg ≠ 0 →
  ∃ new flipped,
    orders (OnData cfg curr st).2 = orders st ++ new
    ∧ sublist flipped (managed_symbols st)
    ∧ Forall (λ m, date_to_switch m ≤ curr < date_to_liquidate m) flipped
    ∧ targets new = (λ m, (symbol m, (- slot_weight cfg)%Qc)) <$> flipped.
Proof.
  intros Hnz. unfold OnData. unfold mbind at 1, M_bind at 1, get.
  unfold mbind, M_bind.
  destruct (OnData_mark_flips cfg curr (managed_symbols st) [] st Hnz)
    as (del' & st1 & new & flipped & Hrun & Ho & Hsub & Hwin & Ht).
  destruct (OnData_mark cfg curr (managed_symbols st) [] st Hnz)
    as (st2 & Hrun' & Hm).
  rewrite Hrun in Hrun'. injection Hrun' as -> <-. rewrite Hrun.
  rewrite (OnData_sweep _ st1
             (List.filter (λ m, negb (date_to_liquidate m <=? curr))
                (managed_symbols st)))
    by (rewrite Hm; apply remove_each_filter).
  by exists new, flipped.
Qed.

(** C7: every slot is sized by the same formula in both directions.
    With a capacity that is not zero, the expression of the entry divides
    to [(leverage - free_margin) / managed_symbols_size] and the
    expression of the flip to its negation.  An iteration of [DaysBefore]
    that admits a listed symbol appends its slot and sets that symbol to
    the fraction, and any other iteration changes nothing; an iteration of
    [OnData] on a position that is due to flip sets the symbol of the
    position to the negated fraction, and any other iteration sets no
    target weight.  Over a whole [DaysBefore] the orders are one target weight at the fraction
    for each slot appended, on its symbol, in order; over a whole [OnData]
    the target weights are one at the negated fraction for each position
    of a sublist of the managed set, on its symbol, each in its switching
    window. *)
Theorem slot_sizing `{Host} (cfg : Config) :
  managed_symbols_size cfg ≠ 0 →
  let w := (Q2Qc (inject_Z (leverage cfg - free_margin cfg))
            / Q2Qc (inject_Z (managed_symbols_size cfg)))%Qc in
  Py.truediv (leverage cfg - free_margin cfg) (managed_symbols_size cfg) = Ok w
  ∧ Py.truediv (-1 * (leverage cfg - free_margin cfg)) (managed_symbols_size cfg)
    = Ok (- w)%Qc
  ∧ (∀ ed ds dl symbol st tickers,
       earnings st !! ed = Some tickers →
       Value symbol ∈ tickers →
       admits cfg st symbol = true →
       DaysBefore_body cfg ed ds dl symbol st
       = (Ok (),
          set_managed_symbols
            (managed_symbols st
             ++ [{| symbol := symbol; date_to_switch := ds;
                    date_to_liquidate := dl |}])
            (place (OrderSetHoldings symbol w) st)))
  ∧ (∀ ed ds dl symbol st tickers,
       earnings st !! ed = Some tickers →
       Value symbol ∉ tickers ∨ admits cfg st symbol = false →
       DaysBefore_body cfg ed ds dl symbol st = (Ok (), st))
  ∧ (∀ curr del m st,
       flip_due curr st m = true →
       OnData_body cfg curr del m st
       = (Ok del, place (OrderSetHoldings (symbol m) (- w)%Qc) st))
  ∧ (∀ curr del m st,
       flip_due curr st m = false →
       targets (orders (OnData_body cfg curr del m st).2) = targets (orders st))
  ∧ (∀ Time st,
       ∃ new,
         managed_symbols (DaysBefore cfg Time st).2
         = managed_symbols st
           ++ (entry_of cfg (add_BDay Time (buyDaysBefore cfg)) <$> new)
         ∧ orders (DaysBefore cfg Time st).2
           = orders st ++ ((λ s, OrderSetHoldings s w) <$> new))
  ∧ (∀ curr st,
       ∃ new flipped,
         orders (OnData cfg curr st).2 = orders st ++ new
         ∧ sublist flipped (managed_symbols st)
         ∧ Forall (λ m, date_to_switch m ≤ curr < date_to_liquidate m) flipped
         ∧ targets new = (λ m, (symbol m, (- w)%Qc)) <$> flipped).
Proof.
  intros Hnz w. change w with (slot_weight cfg).
  split; [by apply truediv_slot_weight|].
  split; [by apply truediv_flip|].
  split; [|split; [|split; [|split; [|split]]]].
  - intros ed ds dl symbol st tickers Hed Hin Hadm.
    rewrite (DaysBefore_body_eq _ _ _ _ _ _ tickers) by done.
    by rewrite bool_decide_eq_true_2, Hadm.
  - intros ed ds dl symbol st tickers Hed [Hin|Hadm];
      rewrite (DaysBefore_body_eq _ _ _ _ _ _ tickers) by done.
    + by rewrite bool_decide_eq_false_2.
    + by rewrite Hadm, andb_false_r.
  - intros curr del m st Hflip. rewrite OnData_body_eq by done. by rewrite Hflip.
  - intros curr del m st Hflip. rewrite OnData_body_eq by done. rewrite Hflip.
    destruct (date_to_liquidate m <=? curr); [|done].
    simpl. unfold targets. rewrite omap_app. simpl. apply app_nil_r.
  - intros Time st. unfold DaysBefore. unfold mbind, M_bind, get.
    destruct (earnings st !! _) as [tickers|] eqn:Hed.
    + destruct (DaysBefore_loop cfg _ tickers (selected_symbols st) st Hed)
        as (new & st' & -> & _ & _ & Hm & Ho & _).
      by exists new.
    + exists []. simpl. by rewrite !app_nil_r.
  - intros curr st. by apply OnData_flips.
Qed.

(** ** Admission *)

Section Admission.
Context `{Host} `{!HostFills} (cfg : Config).

Lemma skipped_refl s st : Invested (brokerage st) s = true → skipped s st st.
Proof. intros Hi. split; [done|]. exists [], []. by rewrite !app_nil_r. Qed.

Lemma skipped_entered s st st' symbol ds dl :
  skipped s st st' → admits cfg st' symbol = true →
  skipped s st (entered cfg symbol ds dl st').
Proof.
  intros (Hi & no & nm & Ho & Hm & Hno & Hnm) Hadm.
  assert (s ≠ symbol) as Hne.
  { intros ->. unfold admits in Hadm. rewrite Hi in Hadm.
    simpl in Hadm. by rewrite andb_false_r in Hadm. }
  split.
  - simpl. by rewrite Invested_SetHoldings_ne.
  - exists (no ++ [OrderSetHoldings symbol (slot_weight cfg)]),
      (nm ++ [{| symbol := symbol; date_to_switch := ds; date_to_liquidate := dl |}]).
    simpl. rewrite Ho, Hm, !app_assoc. repeat split; try done.
    + apply Forall_app. split; [done|]. constructor; [|constructor].
      intros w [= ? _]. done.
    + apply Forall_app. split; [done|]. constructor; [|constructor]. simpl. done.
Qed.

Lemma DaysBefore_skips s Time st :
  Invested (brokerage st) s = true → skipped s st (DaysBefore cfg Time st).2.
Proof.
  intros Hi. destruct (DaysBefore cfg Time st) as [o st'] eqn:Hrun. simpl.
  revert Hrun. apply preserves_run with (P := skipped s st); [|by apply skipped_refl].
  unfold DaysBefore.
  apply preserves_bind; [apply preserves_get|]. intros st0.
  case_match; [|apply preserves_ret].
  apply preserves_for. intros [] symbol _ st1 Hst1.
  destruct (earnings st1 !! add_BDay Time (buyDaysBefore cfg)) as [tickers|] eqn:Hed.
  - rewrite (DaysBefore_body_eq _ _ _ _ _ _ tickers) by done.
    destruct (bool_decide _) ; simpl; [|done].
    destruct (admits cfg st1 symbol) eqn:Hadm; [|done].
    by apply skipped_entered.
  - unfold DaysBefore_body. run_m. by rewrite Hed.
Qed.

End Admission.

(** C9: a long entry needs the symbol not to be invested.  An iteration of
    [DaysBefore] that issues an order or adds a managed record passed the
    whole admission test: below capacity, not invested, price not zero,
    tradable.  And a symbol that is invested when [DaysBefore] starts gets
    no entry order and no managed record in that run. *)
Theorem entry_requires_not_invested `{Host} `{!HostFills} (cfg : Config)
    (Time : date) (st : Algorithm) (s : Symbol) :
  (∀ ed ds dl o st',
     DaysBefore_body cfg ed ds dl s st = (o, st') →
     orders st' ≠ orders st ∨ managed_symbols st' ≠ managed_symbols st →
     Z.of_nat (length (managed_symbols st)) < managed_symbols_size cfg
     ∧ Invested (brokerage st) s = false
     ∧ Price (brokerage st) s ≠ 0%Qc
     ∧ IsTradable (brokerage st) s = true)
  ∧ (∀ ed ds dl,
       Invested (brokerage st) s = true →
       (DaysBefore_body cfg ed ds dl s st).2 = st)
  ∧ (Invested (brokerage st) s = true →
     skipped s st (DaysBefore cfg Time st).2).
Proof.
  split; [|split].
  - intros ed ds dl o st' Hbody Hchg.
    destruct (earnings st !! ed) as [tickers|] eqn:Hed.
    + rewrite (DaysBefore_body_eq _ _ _ _ _ _ tickers) in Hbody by done.
      destruct (bool_decide _); simpl in Hbody;
        [|injection Hbody as <- <-; by destruct Hchg].
      destruct (admits cfg st s) eqn:Hadm;
        [|injection Hbody as <- <-; by destruct Hchg].
      unfold admits in Hadm.
      apply andb_prop in Hadm as [Hadm Ht].
      apply andb_prop in Hadm as [Hadm Hp].
      apply andb_prop in Hadm as [Hlen Hinv].
      repeat split; [lia|by destruct (Invested _ _)| |done].
      apply negb_true_iff, bool_decide_eq_false in Hp. done.
    + unfold DaysBefore_body in Hbody. run_m. rewrite Hed in Hbody.
      injection Hbody as <- <-. by destruct Hchg.
  - intros ed ds dl Hi.
    destruct (earnings st !! ed) as [tickers|] eqn:Hed.
    + rewrite (DaysBefore_body_eq _ _ _ _ _ _ tickers) by done.
      unfold admits. rewrite Hi. simpl.
      by rewrite andb_false_r, andb_false_r.
    + unfold DaysBefore_body. run_m. by rewrite Hed.
  - by apply DaysBefore_skips.
Qed.


(** ** [sorted] *)

Section Sorted.
Context {A : Type} (key : A → Qc).

Lemma insort_Permutation x l : Py.insort key x l ≡ₚ x :: l.
Proof.
  induction l as [|y l IH]; simpl; [done|].
  case_bool_decide; [|done].
  rewrite IH. apply perm_swap.
Qed.

Lemma sorted_Permutation l : Py.sorted key l ≡ₚ l.
Proof.
  induction l as [|x l IH]; simpl; [done|].
  unfold Py.sorted in *. rewrite insort_Permutation. by rewrite IH.
Qed.

Lemma insort_Forall (P : A → Prop) x l :
  P x → Forall P l → Forall P (Py.insort key x l).
Proof. intros Hx Hl. rewrite insort_Permutation. by constructor. Qed.

Lemma insort_StronglySorted x l :
  StronglySorted (key_le key) l → StronglySorted (key_le key) (Py.insort key x l).
Proof.
  induction 1 as [|y l Hl IH Hy]; simpl.
  - repeat constructor.
  - case_bool_decide as Hlt.
    + constructor; [done|]. apply insort_Forall; [|done].
      unfold key_le. by apply Qclt_le_weak.
    + apply Qcnot_lt_le in Hlt. constructor; [by constructor|].
      constructor; [done|].
      eapply Forall_impl; [exact Hy|]. intros z Hz. unfold key_le in *.
      by eapply Qcle_trans.
Qed.

Lemma sorted_StronglySorted l : StronglySorted (key_le key) (Py.sorted key l).
Proof.
  induction l as [|x l IH]; simpl; [constructor|].
  by apply insort_StronglySorted.
Qed.

(** Stability: elements of equal key keep the order they came in. *)
Lemma insort_stable v x l :
  List.filter (λ a, bool_decide (key a = v)) (Py.insort key x l)
  = List.filter (λ a, bool_decide (key a = v)) (x :: l).
Proof.
  induction l as [|y l IH]; [done|].
  cbn [Py.insort]. case_bool_decide as Hlt; [|done].
  cbn [List.filter] in *. rewrite IH.
  case_bool_decide as Hx; [|done]. case_bool_decide as Hy; [|done].
  exfalso. rewrite Hx, Hy in Hlt. by apply Qclt_not_le in Hlt; apply Hlt, Qcle_refl.
Qed.

Lemma sorted_stable v l :
  List.filter (λ a, bool_decide (key a = v)) (Py.sorted key l)
  = List.filter (λ a, bool_decide (key a = v)) l.
Proof.
  induction l as [|x l IH]; [done|].
  change (Py.sorted key (x :: l)) with (Py.insort key x (Py.sorted key l)).
  rewrite insort_stable. cbn [List.filter]. by rewrite IH.
Qed.

End Sorted.

Lemma slice_from_last {A} (k : Z) (l : list A) :
  0 < k ≤ Z.of_nat (length l) →
  Py.slice_from (- k) l = drop (length l - Z.to_nat k) l.
Proof.
  intros Hk. unfold Py.slice_from.
  replace (- k <? 0) with true by lia. f_equal. lia.
Qed.

(** C4: the top quantile of a momentum snapshot with at least
    [quantile] entries.  The selection is the last
    [floor(count / quantile)] instruments of the snapshot sorted by score;
    the sorted list is a permutation of the snapshot, ascending, and keeps
    entries of equal score in the insertion order of the snapshot.  As a
    function of the snapshot the selection is deterministic. *)
Theorem top_quantile_selection `{Host} (cfg : Config)
    (momentum : list (Symbol * Qc)) (st : Algorithm) :
  0 < quantile cfg →
  quantile cfg ≤ Z.of_nat (length momentum) →
  let bucket_size := Z.to_nat (Z.of_nat (length momentum) / quantile cfg) in
  let ranked := Py.sorted snd momentum in
  let top := fst <$> drop (length ranked - bucket_size) ranked in
  select_top_quantile cfg momentum st
    = (Ok (Symbols top), set_selected_symbols top st)
  ∧ length top = bucket_size
  ∧ ranked ≡ₚ momentum
  ∧ StronglySorted (λ a b, (a.2 ≤ b.2)%Qc) ranked
  ∧ (∀ v, List.filter (λ a, bool_decide (a.2 = v)) ranked
          = List.filter (λ a, bool_decide (a.2 = v)) momentum).
Proof.
  intros Hq Hcount bucket_size ranked top.
  assert (length ranked = length momentum) as Hlen.
  { apply Permutation_length, sorted_Permutation. }
  assert (0 < Z.of_nat (length momentum) / quantile cfg ≤ Z.of_nat (length momentum))
    as Hbucket.
  { split.
    - apply Z.div_str_pos. lia.
    - apply Z.div_le_upper_bound; [lia|]. nia. }
  split; [|split; [|split; [|split]]].
  - unfold select_top_quantile.
    replace (Z.of_nat (length momentum) <? quantile cfg) with false by lia.
    unfold Py.int_truediv. replace (quantile cfg =? 0) with false by lia.
    rewrite Z.quot_div_nonneg by lia.
    unfold mbind, M_bind, lift, modify, mret, M_ret.
    rewrite slice_from_last by (rewrite length_fmap; fold ranked; lia).
    rewrite length_fmap, <- fmap_drop. done.
  - unfold top. rewrite length_fmap, length_drop. unfold bucket_size in *. lia.
  - apply sorted_Permutation.
  - apply (sorted_StronglySorted snd).
  - intros v. apply (sorted_stable snd).
Qed.

(** C6: with fewer entries than [quantile] the selection is empty and
    nothing is raised. *)
Theorem too_few_for_quantile `{Host} (cfg : Config)
    (momentum : list (Symbol * Qc)) (st : Algorithm) :
  Z.of_nat (length momentum) < quantile cfg →
  select_top_quantile cfg momentum st = (Ok Unchanged, set_selected_symbols [] st)
  ∧ selected_symbols (select_top_quantile cfg momentum st).2 = [].
Proof.
  intros Hfew. unfold select_top_quantile.
  replace (Z.of_nat (length momentum) <? quantile cfg) with true by lia.
  done.
Qed.

(** ** Exceptions that cannot happen *)

Section NeverRaises.
Context `{Host}.

Lemma never_raises_ret {A} e (a : A) : never_raises e (mret a).
Proof. by intros st. Qed.

Lemma never_raises_get e : never_raises e get.
Proof. by intros st. Qed.

Lemma never_raises_modify e f : never_raises e (modify f).
Proof. by intros st. Qed.

Lemma never_raises_raise {A} e e' : e' ≠ e → never_raises e (raise (A:=A) e').
Proof. intros Hne st. simpl. congruence. Qed.

Lemma never_raises_lift {A} e (o : outcome A) : o ≠ Raise e → never_raises e (lift o).
Proof. by intros Hne st. Qed.

Lemma never_raises_getitem {A} e key (o : option A) :
  KeyError key ≠ e → never_raises e (getitem key o).
Proof. intros Hne st. destruct o; simpl; congruence. Qed.

Lemma never_raises_bind {A B} e (m : M A) (f : A → M B) :
  never_raises e m → (∀ a, never_raises e (f a)) → never_raises e (m ≫= f).
Proof.
  intros Hm Hf st. specialize (Hm st). unfold mbind, M_bind.
  destruct (m st) as [[a|e'] st']; [apply Hf|].
  simpl in *. congruence.
Qed.

Lemma never_raises_for {A B} e (l : list A) (b : B) (body : B → A → M B) :
  (∀ b x, never_raises e (body b x)) → never_raises e (for_ l b body).
Proof.
  intros Hbody. revert b. induction l as [|x l IH]; intros b; simpl.
  - apply never_raises_ret.
  - apply never_raises_bind; [apply Hbody|]. intros b'. apply IH.
Qed.

(** A tracker that is ready does not answer [NotReadyError]. *)
Lemma performance_ready sd :
  is_ready sd = true → performance sd ≠ Raise NotReadyError.
Proof. intros Hr. unfold performance. rewrite Hr. simpl. by repeat case_match. Qed.

End NeverRaises.

(** Reduces [never_raises e m] to one goal for each [raise], [lift] and
    [getitem] in [m]. *)
Ltac never_raises_step :=
  lazymatch goal with
  | |- never_raises _ (mret _) => apply never_raises_ret
  | |- never_raises _ get => apply never_raises_get
  | |- never_raises _ (modify _) => apply never_raises_modify
  | |- never_raises _ (raise _) => apply never_raises_raise
  | |- never_raises _ (lift _) => apply never_raises_lift
  | |- never_raises _ (getitem _ _) => apply never_raises_getitem
  | |- never_raises _ (_ ≫= _) => apply never_raises_bind; [|intros ?]
  | |- never_raises _ (for_ _ _ _) => apply never_raises_for; intros ? ?
  | |- never_raises _ (match ?x with _ => _ end) => destruct x eqn:?
  | |- never_raises _ (match ?x with _ => _ end _) => destruct x; cbv beta iota
  end.

Ltac never_raises_go := repeat never_raises_step.

(** C8: no handler of the algorithm raises [NotReadyError]:
    [CoarseSelectionFunction] asks a tracker for its performance only
    after that tracker has answered [is_ready], and no other handler asks
    at all. *)
Theorem not_ready_unreachable `{Host} (cfg : Config) (ev : event)
    (History : Symbol → Z → list Qc) (coarse : list CoarseFundamental)
    (st : Algorithm) :
  (CoarseSelectionFunction cfg History coarse st).1 ≠ Raise NotReadyError
  ∧ (handle cfg ev st).1 ≠ Raise NotReadyError.
Proof.
  assert (∀ h c, never_raises NotReadyError (CoarseSelectionFunction cfg h c)) as Hc.
  { intros h c. unfold CoarseSelectionFunction, momentum_snapshot, select_top_quantile.
    never_raises_go; try done.
    - by apply performance_ready.
    - unfold Py.int_truediv. by case_match. }
  split; [apply Hc|].
  revert st. change (never_raises NotReadyError (handle cfg ev)).
  destruct ev; simpl.
  - unfold LoadEarningsData, LoadEarningsData_obj, LoadEarningsData_stock.
    never_raises_go; try done. by case_match.
  - apply never_raises_bind; [apply Hc|]. intros _. apply never_raises_ret.
  - unfold DaysBefore, DaysBefore_body. never_raises_go; try done.
    unfold Py.truediv. by case_match.
  - unfold OnData, OnData_body. never_raises_go; try done.
    unfold Py.truediv. by case_match.
  - unfold Selection. never_raises_go. unfold Py.mod_. by case_match.
  - apply never_raises_modify.
Qed.


(** ** [LoadEarningsData] *)

Section Load.
Context `{Host}.

(** The two loop bodies, as case distinctions. *)
Lemma LoadEarningsData_stock_eq d es s st :
  LoadEarningsData_stock d es s st =
    match ticker s with
    | Some t => (Ok ({[t]} ∪ es), set_earnings (alter (λ l, l ++ [t]) d) st)
    | None => (Raise (KeyError "ticker"), st)
    end.
Proof. unfold LoadEarningsData_stock. run_m. by destruct (ticker s). Qed.

Lemma LoadEarningsData_obj_eq dbe es obj st :
  LoadEarningsData_obj (dbe, es) obj st =
    match obj_date obj with
    | None => (Raise (KeyError "date"), st)
    | Some s =>
        match strptime_date s with
        | None => (Raise ValueError, st)
        | Some d =>
            match obj_stocks obj with
            | None => (Raise (KeyError "stocks"), set_earnings (<[d := []]>) st)
            | Some stocks =>
                match for_ stocks es (LoadEarningsData_stock d)
                        (set_earnings (<[d := []]>) st) with
                | (Ok es', st') => (Ok (dbe ++ [sub_BDay d 5], es'), st')
                | (Raise e, st') => (Raise e, st')
                end
            end
        end
    end.
Proof.
  unfold LoadEarningsData_obj, mbind, M_bind, getitem, lift, modify, raise, mret, M_ret.
  destruct (obj_date obj) as [s|]; [|done].
  destruct (strptime_date s) as [d|]; [|done].
  destruct (obj_stocks obj) as [stocks|]; [|done].
  by destruct (for_ stocks es _ _) as [[es'|e] st'].
Qed.

(** *** A feed that parses *)

Lemma load_stocks_ok d stocks : ∀ ts es st,
  mapM ticker stocks = Some ts →
  for_ stocks es (LoadEarningsData_stock d) st
  = (Ok (add_tickers es ts),
     set_earnings (λ _, alter (λ l, l ++ ts) d (earnings st)) st).
Proof.
  induction stocks as [|s stocks IH]; intros ts es st Hts.
  - injection Hts as <-. simpl. f_equal. destruct st; unfold set_earnings; simpl.
    f_equal. symmetry. apply alter_id. intros l _. apply app_nil_r.
  - simpl in Hts. destruct (ticker s) as [t|] eqn:Ht; simpl in Hts; [|done].
    destruct (mapM ticker stocks) as [ts'|]; simpl in Hts; [|done].
    injection Hts as <-.
    rewrite for_cons, LoadEarningsData_stock_eq, Ht.
    rewrite (IH ts' _ _ eq_refl). simpl. f_equal. unfold set_earnings. simpl.
    f_equal. rewrite alter_alter_eq. apply alter_ext.
    intros l _. simpl. by rewrite <- app_assoc.
Qed.

Lemma load_obj_ok obj d ts dbe es st :
  obj_day obj = Some d → obj_tickers obj = Some ts →
  LoadEarningsData_obj (dbe, es) obj st
  = (Ok (dbe ++ [sub_BDay d 5], add_tickers es ts),
     set_earnings (λ _, index_obj (earnings st) obj) st).
Proof.
  intros Hd Hts. unfold index_obj. rewrite Hd, Hts.
  unfold obj_day, obj_tickers in *. rewrite LoadEarningsData_obj_eq.
  destruct (obj_date obj) as [s|]; simpl in Hd; [|done].
  destruct (obj_stocks obj) as [stocks|]; simpl in Hts; [|done].
  rewrite Hd, (load_stocks_ok d stocks ts) by done.
  f_equal. unfold set_earnings. simpl. f_equal.
  apply map_eq. intros i. destruct (decide (d = i)) as [<-|Hne].
  - by rewrite lookup_alter_eq, !lookup_insert_eq.
  - by rewrite lookup_alter_ne, !lookup_insert_ne.
Qed.

Lemma load_feed_ok feed : ∀ dbe es st,
  Forall well_formed feed →
  for_ feed (dbe, es) LoadEarningsData_obj st
  = (Ok (dbe ++ omap (λ obj, (λ d, sub_BDay d 5) <$> obj_day obj) feed,
         foldl collect_obj es feed),
     set_earnings (λ _, foldl index_obj (earnings st) feed) st).
Proof.
  induction feed as [|obj feed IH]; intros dbe es st Hwf.
  - simpl. rewrite app_nil_r. by destruct st.
  - inversion_clear Hwf as [|? ? [[d Hd] [ts Hts]] Hwf'].
    rewrite for_cons, (load_obj_ok obj d ts) by done.
    rewrite IH by done.
    cbn [omap list_omap foldl]. rewrite Hd. cbn [fmap option_fmap option_map].
    change (collect_obj es obj) with (add_tickers es (default [] (obj_tickers obj))).
    rewrite Hts. cbn [default].
    by rewrite <- app_assoc.
Qed.

(** *** A feed that does not parse *)

Lemma load_stocks_inv d stocks : ∀ es st es' st',
  for_ stocks es (LoadEarningsData_stock d) st = (Ok es', st') →
  is_Some (mapM ticker stocks).
Proof.
  induction stocks as [|s stocks IH]; intros es st es' st' Hrun; [by eexists|].
  rewrite for_cons, LoadEarningsData_stock_eq in Hrun.
  simpl. destruct (ticker s) as [t|]; [|done]. simpl.
  apply IH in Hrun as [ts ->]. by eexists.
Qed.

Lemma load_obj_inv acc obj st acc' st' :
  LoadEarningsData_obj acc obj st = (Ok acc', st') → well_formed obj.
Proof.
  destruct acc as [dbe es]. rewrite LoadEarningsData_obj_eq.
  unfold well_formed, obj_day, obj_tickers.
  destruct (obj_date obj) as [s|]; [|done]. simpl.
  destruct (strptime_date s) as [d|]; [|done].
  destruct (obj_stocks obj) as [stocks|]; [|done]. simpl.
  destruct (for_ stocks es (LoadEarningsData_stock d) _) as [[es1|e] st1] eqn:Hin;
    [|done].
  intros _. split; [by eexists|]. by eapply load_stocks_inv.
Qed.

Lemma load_feed_inv feed : ∀ acc st acc' st',
  for_ feed acc LoadEarningsData_obj st = (Ok acc', st') → Forall well_formed feed.
Proof.
  induction feed as [|obj feed IH]; intros acc st acc' st' Hrun; [constructor|].
  rewrite for_cons in Hrun.
  destruct (LoadEarningsData_obj acc obj st) as [[acc1|e] st1] eqn:Hobj; [|done].
  constructor; [by eapply load_obj_inv|by eapply IH].
Qed.

Lemma load_stock_inv feed u d es s :
  preserves (load_inv feed u) (LoadEarningsData_stock d es s).
Proof.
  intros st [Hu Hdom]. rewrite LoadEarningsData_stock_eq.
  destruct (ticker s) as [t|]; simpl; [|done].
  split; [done|]. intros d'. simpl. rewrite lookup_alter_is_Some. apply Hdom.
Qed.

Lemma load_obj_inv_keeps feed u acc obj :
  obj ∈ feed →
  preserves (load_inv feed u) (LoadEarningsData_obj acc obj).
Proof.
  intros Hin st [Hu Hdom]. destruct acc as [dbe es].
  rewrite LoadEarningsData_obj_eq.
  destruct (obj_date obj) as [s|] eqn:Hs; [|done].
  destruct (strptime_date s) as [d|] eqn:Hd; [|done].
  assert (load_inv feed u (set_earnings <[d:=[]]> st)) as Hinv.
  { split; [done|]. intros d'. simpl. rewrite lookup_insert_is_Some.
    intros [<-|[_ Hd']]; [|by apply Hdom].
    exists obj. split; [done|]. unfold obj_day. by rewrite Hs. }
  destruct (obj_stocks obj) as [stocks|]; [|done].
  pose proof (preserves_for (load_inv feed u) stocks es (LoadEarningsData_stock d)
                (λ es' s' _, load_stock_inv feed u d es' s') _ Hinv) as Hloop.
  by destruct (for_ stocks es (LoadEarningsData_stock d) _) as [[es1|e] st1].
Qed.

Lemma load_feed_inv_keeps feed u acc :
  preserves (load_inv feed u) (for_ feed acc LoadEarningsData_obj).
Proof.
  apply preserves_for. intros acc' obj Hin. by apply load_obj_inv_keeps.
Qed.

End Load.

Section LoadResults.
Context `{Host}.

(** A feed that parses loads: the index and the universe are what the
    loops build from an empty index and an empty set. *)
Lemma LoadEarningsData_ok feed st :
  Forall well_formed feed →
  ∃ st', LoadEarningsData feed st = (Ok (), st')
         ∧ earnings st' = foldl index_obj ∅ feed
         ∧ earnings_universe st' = foldl collect_obj ∅ feed.
Proof.
  intros Hwf. unfold LoadEarningsData, mbind, M_bind, modify.
  rewrite load_feed_ok by done. by eexists.
Qed.

(** A load that returns read a feed that parses. *)
Lemma LoadEarningsData_inv feed st st' :
  LoadEarningsData feed st = (Ok (), st') → Forall well_formed feed.
Proof.
  unfold LoadEarningsData, mbind, M_bind, modify.
  destruct (for_ feed _ _ _) as [[acc|e] st1] eqn:Hloop; [|done].
  intros _. by eapply load_feed_inv.
Qed.

(** Each date holds the tickers of the last object that bears it. *)
Lemma index_lookup feed E d :
  Forall well_formed feed →
  foldl index_obj E feed !! d
  = match last (bearing d feed) with
    | Some obj => obj_tickers obj
    | None => E !! d
    end.
Proof.
  induction feed as [|obj feed IH] using rev_ind; intros Hwf; [done|].
  apply Forall_app in Hwf as [Hwf Hobj].
  inversion_clear Hobj as [|? ? [[d0 Hd0] [ts Hts]] _].
  rewrite foldl_app. cbn [foldl]. unfold index_obj at 1. rewrite Hd0, Hts.
  unfold bearing. rewrite List.filter_app. cbn [List.filter]. rewrite Hd0.
  case_bool_decide as Hd.
  - injection Hd as ->. by rewrite last_snoc, lookup_insert_eq.
  - rewrite app_nil_r, lookup_insert_ne by congruence. by apply IH.
Qed.

Lemma elem_of_add_tickers t ts : ∀ es,
  t ∈ add_tickers es ts ↔ t ∈ es ∨ t ∈ ts.
Proof.
  unfold add_tickers. induction ts as [|t' ts IH]; intros es; simpl.
  - split; [by left|]. intros [?|Hn]; [done|]. by apply elem_of_nil in Hn.
  - rewrite IH, elem_of_union, elem_of_singleton, elem_of_cons. tauto.
Qed.

Lemma elem_of_collect t feed : ∀ es,
  t ∈ foldl collect_obj es feed
  ↔ t ∈ es ∨ ∃ obj ts, obj ∈ feed ∧ obj_tickers obj = Some ts ∧ t ∈ ts.
Proof.
  induction feed as [|obj feed IH]; intros es; simpl.
  - split; [by left|]. intros [?|(obj & ts & Hin & _)]; [done|].
    by apply elem_of_nil in Hin.
  - rewrite IH. unfold collect_obj. rewrite elem_of_add_tickers. split.
    + intros [[Hes|Ht]|(o & ts & Hin & Hts & Ht)].
      * by left.
      * right. destruct (obj_tickers obj) as [ts|] eqn:Hts; simpl in Ht.
        -- exists obj, ts. split; [by left|done].
        -- by apply elem_of_nil in Ht.
      * right. exists o, ts. split; [by right|done].
    + intros [Hes|(o & ts & Hin & Hts & Ht)]; [by left; left|].
      apply elem_of_cons in Hin as [->|Hin].
      * left. right. by rewrite Hts.
      * right. by exists o, ts.
Qed.

End LoadResults.

(** C10: with duplicate dates the last object wins the date and the
    universe keeps every ticker.  After a load that returns, a date of the
    index holds the tickers of the last object of the feed that bears it
    (and no date else is in the index), while the universe is the set of
    the tickers of all objects. *)
Theorem duplicate_dates_last_wins `{Host} (feed : list feed_obj) (st : Algorithm) :
  (LoadEarningsData feed st).1 = Ok () →
  let st' := (LoadEarningsData feed st).2 in
  (∀ d, earnings st' !! d = last (bearing d feed) ≫= obj_tickers)
  ∧ (∀ d, instruments_on st' d = default [] (last (bearing d feed) ≫= obj_tickers))
  ∧ (∀ t, t ∈ eligible_universe st'
          ↔ ∃ obj ts, obj ∈ feed ∧ obj_tickers obj = Some ts ∧ t ∈ ts).
Proof.
  intros Hok st'.
  assert (LoadEarningsData feed st = (Ok (), st')) as Hrun.
  { rewrite <- Hok. apply surjective_pairing. }
  pose proof (LoadEarningsData_inv _ _ _ Hrun) as Hwf.
  destruct (LoadEarningsData_ok feed st Hwf) as (st'' & Hrun' & HE & HU).
  rewrite Hrun in Hrun'. injection Hrun' as <-.
  assert (∀ d, earnings st' !! d = last (bearing d feed) ≫= obj_tickers) as Hidx.
  { intros d. rewrite HE, index_lookup by done.
    by destruct (last (bearing d feed)). }
  split; [done|split].
  - intros d. unfold instruments_on. by rewrite Hidx.
  - intros t. unfold eligible_universe. rewrite HU, elem_of_collect.
    split; [|by right]. intros [Hn|?]; [|done]. by apply elem_of_empty in Hn.
Qed.

(** C1, as the code has it: a load that fails keeps the universe but not
    the index.  For a feed with an object that does not parse, the load
    does not return: it raises; the ticker universe is the one before the
    load; the index was emptied when the load started, so every date left
    in it is the date of an object of the new feed. *)
Theorem failed_load_keeps_universe `{Host} (feed : list feed_obj) (st : Algorithm) :
  ¬ Forall well_formed feed →
  ∃ e st', LoadEarningsData feed st = (Raise e, st')
           ∧ eligible_universe st' = eligible_universe st
           ∧ ∀ d, is_Some (earnings st' !! d) →
                  ∃ obj, obj ∈ feed ∧ obj_day obj = Some d.
Proof.
  intros Hbad. unfold LoadEarningsData, mbind, M_bind, modify.
  pose proof (load_feed_inv_keeps feed (earnings_universe st) ([], ∅)
                (set_earnings (λ _, ∅) st)) as Hloop.
  destruct (for_ feed _ _ _) as [[acc|e] st1] eqn:Hrun.
  - destruct Hbad. by eapply load_feed_inv.
  - destruct Hloop as [Hu Hdom].
    + split; [done|]. intros d. simpl. rewrite lookup_empty. by intros [? ?].
    + by exists e, st1.
Qed.

(** ** The run on the simulated host *)

#[global] Instance Sim_fills : @HostFills Sim.host.
Proof.
  split.
  - intros b s w Hw. simpl. unfold Sim.holding. simpl.
    rewrite lookup_insert_eq. simpl. apply bool_decide_eq_false.
    by apply Qcle_not_lt, Qclt_le_weak.
  - intros b s s' w Hne. simpl. unfold Sim.holding. simpl.
    by rewrite lookup_insert_ne.
Qed.

Lemma reachable_Initialize `{Host} cfg parameter j b0 :
  reachable cfg (Initialize parameter j (blank b0)).2.
Proof. eapply reachable_init. apply surjective_pairing. Qed.

Lemma reachable_handle `{Host} cfg ev st :
  reachable cfg st → reachable cfg (handle cfg ev st).2.
Proof. intros Hst. eapply reachable_step; [exact Hst|apply surjective_pairing]. Qed.

Lemma Demo_reachable :
  reachable Demo.cfg Demo.st2 ∧ reachable Demo.cfg Demo.st5.
Proof.
  assert (reachable Demo.cfg Demo.st2) as H2.
  { unfold Demo.st2, Demo.st1, Demo.st0.
    do 2 apply reachable_handle. apply reachable_Initialize. }
  split; [exact H2|].
  unfold Demo.st5, Demo.st4, Demo.st3. by do 3 apply reachable_handle.
Qed.

Example Demo_Initialize :
  (Initialize Demo.parameter Demo.feed (blank Demo.book0)).1 = Ok Demo.cfg.
Proof. compute_done. Qed.

Example Demo_selected : selected_symbols Demo.st1 = ["S3"].
Proof. compute_done. Qed.

Example Demo_entry :
  managed_symbols Demo.st2 = [Demo.position]
  ∧ orders Demo.st2 = [OrderSetHoldings "S3" (slot_weight Demo.cfg)].
Proof. compute_done. Qed.

Example Demo_flip_once :
  orders Demo.st3
  = [OrderSetHoldings "S3" (slot_weight Demo.cfg);
     OrderSetHoldings "S3" (- slot_weight Demo.cfg)%Qc]
  ∧ orders Demo.st4 = orders Demo.st3
  ∧ managed_symbols Demo.st4 = [Demo.position].
Proof. compute_done. Qed.

Example Demo_liquidate :
  orders Demo.st5 = orders Demo.st4 ++ [OrderLiquidate "S3"]
  ∧ managed_symbols Demo.st5 = [].
Proof. compute_done. Qed.

(** ** The properties on the run *)

Lemma feed_bad_malformed : ¬ Forall well_formed Demo.feed_bad.
Proof.
  intros Hwf. apply Forall_cons in Hwf as [_ Hwf].
  apply Forall_cons in Hwf as [[[d Hd] _] _]. discriminate Hd.
Qed.

(** The atomic reading of the load fails on the run: the announcement of
    2023-01-09 is in the index before the failed load and gone after it. *)
Lemma failed_load_loses_index :
  ¬ Forall well_formed Demo.feed_bad
  ∧ (LoadEarningsData Demo.feed_bad Demo.st0).1 = Raise (KeyError "date")
  ∧ instruments_on Demo.st0 738529 = Demo.tickers
  ∧ instruments_on (LoadEarningsData Demo.feed_bad Demo.st0).2 738529 = []
  ∧ instruments_on (LoadEarningsData Demo.feed_bad Demo.st0).2 738529
    ≠ instruments_on Demo.st0 738529.
Proof.
  split; [exact feed_bad_malformed|].
  split; [compute_done|]. split; [compute_done|]. split; compute_done.
Qed.

Lemma failed_load_keeps_universe_witness :
  ¬ Forall well_formed Demo.feed_bad
  ∧ ∃ e st', LoadEarningsData Demo.feed_bad Demo.st0 = (Raise e, st')
             ∧ eligible_universe st' = eligible_universe Demo.st0
             ∧ ∀ d, is_Some (earnings st' !! d) →
                    ∃ obj, obj ∈ Demo.feed_bad ∧ obj_day obj = Some d.
Proof.
  split; [exact feed_bad_malformed|].
  apply (failed_load_keeps_universe Demo.feed_bad Demo.st0). exact feed_bad_malformed.
Defined.

Lemma duplicate_dates_last_wins_witness :
  (LoadEarningsData Demo.feed_dup Demo.st0).1 = Ok ()
  ∧ let st' := (LoadEarningsData Demo.feed_dup Demo.st0).2 in
    (∀ d, earnings st' !! d = last (bearing d Demo.feed_dup) ≫= obj_tickers)
    ∧ (∀ d, instruments_on st' d
            = default [] (last (bearing d Demo.feed_dup) ≫= obj_tickers))
    ∧ (∀ t, t ∈ eligible_universe st'
            ↔ ∃ obj ts, obj ∈ Demo.feed_dup ∧ obj_tickers obj = Some ts ∧ t ∈ ts).
Proof.
  assert ((LoadEarningsData Demo.feed_dup Demo.st0).1 = Ok ()) as Hok by compute_done.
  split; [exact Hok|].
  exact (duplicate_dates_last_wins Demo.feed_dup Demo.st0 Hok).
Defined.

Example Demo_duplicate_dates :
  instruments_on (LoadEarningsData Demo.feed_dup Demo.st0).2 738529 = ["S3"]
  ∧ instruments_on (LoadEarningsData Demo.feed_dup Demo.st0).2 738530 = ["S2"]
  ∧ eligible_universe (LoadEarningsData Demo.feed_dup Demo.st0).2
    = {["S0"; "S1"; "S2"; "S3"]}.
Proof. split; [compute_done|]. split; compute_done. Qed.


Lemma slot_sizing_witness :
  managed_symbols_size Demo.cfg ≠ 0
  ∧ admits Demo.cfg Demo.st1 "S3" = true
  ∧ DaysBefore_body Demo.cfg 738529 738530 738536 "S3" Demo.st1
    = (Ok (),
       set_managed_symbols
         (managed_symbols Demo.st1 ++ [Demo.position])
         (place (OrderSetHoldings "S3"
                   (Q2Qc (inject_Z (leverage Demo.cfg - free_margin Demo.cfg))
                    / Q2Qc (inject_Z (managed_symbols_size Demo.cfg)))%Qc)
            Demo.st1))
  ∧ flip_due 738530 Demo.st2 Demo.position = true
  ∧ OnData_body Demo.cfg 738530 [] Demo.position Demo.st2
    = (Ok [],
       place (OrderSetHoldings "S3"
                (- (Q2Qc (inject_Z (leverage Demo.cfg - free_margin Demo.cfg))
                    / Q2Qc (inject_Z (managed_symbols_size Demo.cfg))))%Qc)
         Demo.st2).
Proof.
  assert (managed_symbols_size Demo.cfg ≠ 0) as Hnz by (simpl; lia).
  assert (earnings Demo.st1 !! 738529 = Some Demo.tickers) as Hed by compute_done.
  assert (Value ("S3" : @Symbol Sim.host) ∈ Demo.tickers) as Hin by compute_done.
  assert (admits Demo.cfg Demo.st1 "S3" = true) as Hadm by compute_done.
  assert (flip_due 738530 Demo.st2 Demo.position = true) as Hflip by compute_done.
  split; [exact Hnz|]. split; [exact Hadm|].
  destruct (slot_sizing Demo.cfg Hnz) as (_ & _ & Hentry & _ & Hturn & _).
  split; [exact (Hentry 738529 738530 738536 "S3" Demo.st1 Demo.tickers Hed Hin Hadm)|].
  split; [exact Hflip|].
  exact (Hturn 738530 [] Demo.position Demo.st2 Hflip).
Defined.

Lemma managed_set_bounded_witness :
  0 ≤ managed_symbols_size Demo.cfg
  ∧ reachable Demo.cfg Demo.st2
  ∧ Z.of_nat (length (managed_symbols Demo.st2)) ≤ managed_symbols_size Demo.cfg.
Proof.
  assert (0 ≤ managed_symbols_size Demo.cfg) as Hsize by (simpl; lia).
  split; [exact Hsize|]. split; [exact (proj1 Demo_reachable)|].
  exact (proj1 (managed_set_bounded Demo.cfg Demo.st2 Hsize (proj1 Demo_reachable))).
Defined.

Lemma managed_dates_ordered_witness :
  switchDaysAfter Demo.cfg ≤ sellDaysAfter Demo.cfg
  ∧ reachable Demo.cfg Demo.st2
  ∧ Forall dates_ordered (managed_symbols Demo.st2).
Proof.
  assert (switchDaysAfter Demo.cfg ≤ sellDaysAfter Demo.cfg) as Hoff by (simpl; lia).
  split; [exact Hoff|]. split; [exact (proj1 Demo_reachable)|].
  exact (managed_dates_ordered Demo.cfg Demo.st2 Hoff (proj1 Demo_reachable)).
Defined.

Lemma top_quantile_selection_witness :
  0 < quantile Demo.cfg
  ∧ quantile Demo.cfg ≤ Z.of_nat (length Demo.momentum)
  ∧ select_top_quantile Demo.cfg Demo.momentum Demo.st0
    = (Ok (Symbols
             (fst <$> drop (length (Py.sorted snd Demo.momentum)
                            - Z.to_nat (Z.of_nat (length Demo.momentum)
                                        / quantile Demo.cfg))
                        (Py.sorted snd Demo.momentum))),
       set_selected_symbols
         (fst <$> drop (length (Py.sorted snd Demo.momentum)
                        - Z.to_nat (Z.of_nat (length Demo.momentum)
                                    / quantile Demo.cfg))
                    (Py.sorted snd Demo.momentum))
         Demo.st0).
Proof.
  assert (0 < quantile Demo.cfg) as Hq by (simpl; lia).
  assert (quantile Demo.cfg ≤ Z.of_nat (length Demo.momentum)) as Hn by (simpl; lia).
  split; [exact Hq|]. split; [exact Hn|].
  exact (proj1 (top_quantile_selection Demo.cfg Demo.momentum Demo.st0 Hq Hn)).
Defined.

Example Demo_top_quantile :
  fst <$> Py.sorted snd Demo.momentum
  = ["S0"; "S1"; "S2"; "S4"; "S5"; "S6"; "S8"; "S9"; "S3"; "S7"]
  ∧ selected_symbols (select_top_quantile Demo.cfg Demo.momentum Demo.st0).2 = ["S7"].
Proof. split; compute_done. Qed.

Lemma too_few_for_quantile_witness :
  Z.of_nat (length Demo.momentum_short) < quantile Demo.cfg
  ∧ select_top_quantile Demo.cfg Demo.momentum_short Demo.st1
    = (Ok Unchanged, set_selected_symbols [] Demo.st1)
  ∧ selected_symbols (select_top_quantile Demo.cfg Demo.momentum_short Demo.st1).2 = [].
Proof.
  assert (Z.of_nat (length Demo.momentum_short) < quantile Demo.cfg) as Hfew
    by (simpl; lia).
  split; [exact Hfew|].
  exact (too_few_for_quantile Demo.cfg Demo.momentum_short Demo.st1 Hfew).
Defined.

Lemma entry_requires_not_invested_witness :
  Invested (brokerage Demo.st2) "S3" = true
  ∧ skipped "S3" Demo.st2 (DaysBefore Demo.cfg 738522 Demo.st2).2.
Proof.
  assert (Invested (brokerage Demo.st2) ("S3" : @Symbol Sim.host) = true) as Hinv
    by compute_done.
  split; [exact Hinv|].
  exact (proj2 (proj2 (entry_requires_not_invested (H0:=Sim_fills)
                         Demo.cfg 738522 Demo.st2 "S3")) Hinv).
Defined.

Example Demo_no_second_entry :
  orders (DaysBefore Demo.cfg 738522 Demo.st2).2 = orders Demo.st2
  ∧ managed_symbols (DaysBefore Demo.cfg 738522 Demo.st2).2 = managed_symbols Demo.st2.
Proof. split; compute_done. Qed.


(** * Further properties *)

(** ** Business days *)

Ltac split_tests :=
  repeat match goal with
         | |- context [?a <=? ?b] => destruct (Z.leb_spec a b)
         | |- context [?a <? ?b] => destruct (Z.ltb_spec a b)
         | |- context [?a =? ?b] => destruct (Z.eqb_spec a b)
         end.

(** [add_BDay] in closed form, on the quotient and remainder of the offset
    by 5 and the weekday of the date. *)
Lemma add_BDay_spec d n :
  ∃ q r k w, n = 5 * q + r ∧ 0 ≤ r < 5 ∧ d + 6 = 7 * k + w ∧ 0 ≤ w < 7
    ∧ w = weekday d
    ∧ add_BDay d n =
        d + 7 * q +
        (if 4 <? w
         then (if n <=? 0 then 7 - w + r
               else if r =? 0 then 4 - w else 7 - w + r - 1)
         else if w + r <=? 4 then r else r + 2).
Proof.
  exists (n / 5), (n mod 5), ((d + 6) / 7), (weekday d).
  pose proof (Z.div_mod n 5 ltac:(lia)) as Hn.
  pose proof (Z.mod_pos_bound n 5 ltac:(lia)) as Hn'.
  pose proof (Z.div_mod (d + 6) 7 ltac:(lia)) as Hd.
  pose proof (Z.mod_pos_bound (d + 6) 7 ltac:(lia)) as Hd'.
  unfold add_BDay, adjust_ndays, weekday.
  repeat split; try lia.
  generalize dependent ((d + 6) mod 7). generalize dependent (n mod 5).
  generalize dependent (n / 5). intros q r Hr Hn w Hw Hd.
  destruct (Z.leb_spec n 0), (Z.ltb_spec 4 w); simpl; split_tests; simpl; lia.
Qed.

Lemma weekday_spec x : ∃ k, x + 6 = 7 * k + weekday x ∧ 0 ≤ weekday x < 7.
Proof.
  exists ((x + 6) / 7). unfold weekday.
  pose proof (Z.div_mod (x + 6) 7 ltac:(lia)).
  pose proof (Z.mod_pos_bound (x + 6) 7 ltac:(lia)). lia.
Qed.

(** A business-day offset always lands on a business day. *)
Lemma add_BDay_weekday d n : weekday (add_BDay d n) ≤ 4.
Proof.
  destruct (add_BDay_spec d n) as (q & r & k & w & Hn & Hr & Hd & Hw & _ & ->).
  match goal with
  | |- weekday ?x ≤ 4 =>
      destruct (weekday_spec x) as (k' & Hk' & Hw'); revert Hk' Hw';
      generalize (weekday x)
  end.
  intros w'. split_tests; lia.
Qed.

(** From a business day, going back [n] business days and forward [n]
    again returns to it. *)
Lemma BDay_round_trip d n : weekday d ≤ 4 → add_BDay (sub_BDay d n) n = d.
Proof.
  intros Hwd. unfold sub_BDay.
  destruct (add_BDay_spec d (- n))
    as (q & r & k & w & Hn & Hr & Hd & Hw & Hww & Heq).
  destruct (add_BDay_spec (add_BDay d (- n)) n)
    as (q' & r' & k' & w' & Hn' & Hr' & Hd' & Hw' & _ & ->).
  rewrite Heq in *. clear Heq. subst w.
  revert Hd Hw Hwd Hd'. generalize (weekday d). intros w.
  split_tests; intros; lia.
Qed.

Lemma sub_BDay_before d n : 0 < n → sub_BDay d n < d.
Proof.
  intros Hn. unfold sub_BDay.
  destruct (add_BDay_spec d (- n)) as (q & r & k & w & Hq & Hr & Hd & Hw & _ & ->).
  split_tests; lia.
Qed.

(** ** More on [DaysBefore] *)

(** X1: [DaysBefore] raises neither [ZeroDivisionError] nor [KeyError],
    whatever the configuration and the state: the division by
    [managed_symbols_size] is only reached below capacity, where the
    capacity is not zero, and the index is only read at a date it holds. *)
Theorem DaysBefore_divides_safely `{Host} (cfg : Config) (Time : date)
    (st : Algorithm) :
  (DaysBefore cfg Time st).1 ≠ Raise ZeroDivisionError
  ∧ ∀ key, (DaysBefore cfg Time st).1 ≠ Raise (KeyError key).
Proof.
  assert (∀ e, (DaysBefore cfg Time st).1 ≠ Raise e) as Hno.
  { intros e. unfold DaysBefore. unfold mbind, M_bind, get.
    destruct (earnings st !! _) as [tickers|] eqn:Hed; [|done].
    destruct (DaysBefore_loop cfg _ tickers (selected_symbols st) st Hed)
      as (new & st' & Hrun & _).
    by rewrite Hrun. }
  split; [apply Hno|]. intros key. apply Hno.
Qed.

(** X2: what [DaysBefore] enters.  The records it appends are for a
    sublist of the selected symbols, each listed in the index for the
    earnings date [Time + BDay(buyDaysBefore)], with the switch and
    liquidation dates offset from that date; it issues one long order for
    each record, in the same order, and nothing else. *)
Theorem DaysBefore_entries `{Host} (cfg : Config) (Time : date) (st : Algorithm) :
  let earnings_date := add_BDay Time (buyDaysBefore cfg) in
  let st' := (DaysBefore cfg Time st).2 in
  ∃ new,
    sublist new (selected_symbols st)
    ∧ Forall (λ s, Value s ∈ instruments_on st earnings_date) new
    ∧ managed_symbols st'
      = managed_symbols st ++ (entry_of cfg earnings_date <$> new)
    ∧ orders st'
      = orders st ++ ((λ s, OrderSetHoldings s (slot_weight cfg)) <$> new).
Proof.
  intros ed st'. unfold st', DaysBefore. unfold mbind, M_bind, get.
  fold ed. unfold instruments_on.
  destruct (earnings st !! ed) as [tickers|] eqn:Hed.
  - destruct (DaysBefore_loop cfg ed tickers (selected_symbols st) st Hed)
      as (new & st1 & Hrun & Hsub & Hall & Hm & Ho & _).
    rewrite Hrun. by exists new.
  - exists []. simpl. rewrite !app_nil_r. repeat split; [apply sublist_nil_l|done].
Qed.

(** X3: [DaysBefore] leaves the whole state as it is when no selected
    symbol is listed for the earnings date, and in particular when that
    date is not in the index. *)
Theorem DaysBefore_nothing_announced `{Host} (cfg : Config) (Time : date)
    (st : Algorithm) :
  Forall (λ s, Value s ∉ instruments_on st (add_BDay Time (buyDaysBefore cfg)))
    (selected_symbols st) →
  DaysBefore cfg Time st = (Ok (), st).
Proof.
  intros Hnone. unfold DaysBefore. unfold mbind, M_bind, get.
  unfold instruments_on in Hnone.
  destruct (earnings st !! _) as [tickers|] eqn:Hed; [|done].
  destruct (DaysBefore_loop cfg _ tickers (selected_symbols st) st Hed)
    as (new & st' & Hrun & Hsub & Hall & _ & _ & Hnil).
  rewrite Hrun. f_equal. apply Hnil.
  destruct new as [|s new]; [done|]. exfalso.
  inversion_clear Hall as [|? ? Hs _].
  assert (s ∈ selected_symbols st) as Hsel.
  { eapply sublist_subseteq; [exact Hsub|]. by left. }
  rewrite Forall_forall in Hnone. by apply (Hnone s Hsel).
Qed.

(** X4: an announcement dated on a Saturday or a Sunday is never acted
    on: the date [DaysBefore] looks up is always a business day, so with
    only weekend dates in the index it does nothing. *)
Theorem DaysBefore_weekend_dates `{Host} (cfg : Config) (Time : date)
    (st : Algorithm) :
  (∀ d, is_Some (earnings st !! d) → 4 < weekday d) →
  DaysBefore cfg Time st = (Ok (), st).
Proof.
  intros Hweekend. unfold DaysBefore. unfold mbind, M_bind, get.
  destruct (earnings st !! _) as [tickers|] eqn:Hed; [|done].
  pose proof (Hweekend _ (mk_is_Some _ _ Hed)) as Hw.
  pose proof (add_BDay_weekday Time (buyDaysBefore cfg)). lia.
Qed.

(** From a business day, a larger offset lands on a later day. *)
Lemma add_BDay_strict d m n :
  weekday d ≤ 4 → m < n → add_BDay d m < add_BDay d n.
Proof.
  intros Hwd Hmn.
  destruct (add_BDay_spec d m) as (q & r & k & w & Hm & Hr & Hd & Hw & Hww & ->).
  destruct (add_BDay_spec d n) as (q' & r' & k' & w' & Hn & Hr' & Hd' & Hw' & Hww' & ->).
  subst w w'. revert Hwd. generalize (weekday d). intros w Hwd.
  split_tests; lia.
Qed.

(** ** More on [LoadEarningsData] *)

Section LoadMore.
Context `{Host}.

Lemma for_app {A B} (l1 l2 : list A) (b : B) (body : B → A → M B) st :
  for_ (l1 ++ l2) b body st =
    match for_ l1 b body st with
    | (Ok b', st') => for_ l2 b' body st'
    | (Raise e, st') => (Raise e, st')
    end.
Proof.
  revert b st. induction l1 as [|x l1 IH]; intros b st; [done|].
  rewrite <- app_comm_cons, !for_cons.
  destruct (body b x st) as [[b'|e] st']; [apply IH|done].
Qed.

(** The load of a feed that parses, in full. *)
Lemma LoadEarningsData_ok_eq feed st :
  Forall well_formed feed →
  LoadEarningsData feed st =
    (Ok (),
     set_schedule
       (λ sch, sch ++ [omap (λ obj, (λ d, sub_BDay d 5) <$> obj_day obj) feed])
       (set_earnings_universe (foldl collect_obj ∅ feed)
          (set_earnings (λ _, foldl index_obj ∅ feed) st))).
Proof.
  intros Hwf. unfold LoadEarningsData, mbind, M_bind, modify.
  by rewrite load_feed_ok.
Qed.

Lemma LoadEarningsData_Ok_wf feed st :
  (LoadEarningsData feed st).1 = Ok () → Forall well_formed feed.
Proof.
  intros Hok. eapply LoadEarningsData_inv. rewrite <- Hok. apply surjective_pairing.
Qed.

(** The load of a feed whose first object that does not parse is [bad]. *)
Lemma LoadEarningsData_stops good bad rest st :
  Forall well_formed good →
  LoadEarningsData (good ++ bad :: rest) st =
    match LoadEarningsData_obj
            ([] ++ omap (λ obj, (λ d, sub_BDay d 5) <$> obj_day obj) good,
             foldl collect_obj ∅ good)
            bad (set_earnings (λ _, foldl index_obj ∅ good) st) with
    | (Ok locals, st1) =>
        match for_ rest locals LoadEarningsData_obj st1 with
        | (Ok locals', st2) =>
            (Ok (), set_schedule (λ sch, sch ++ [locals'.1])
                      (set_earnings_universe locals'.2 st2))
        | (Raise e, st2) => (Raise e, st2)
        end
    | (Raise e, st1) => (Raise e, st1)
    end.
Proof.
  intros Hwf. unfold LoadEarningsData, mbind, M_bind, modify.
  rewrite for_app, load_feed_ok by done. rewrite for_cons.
  destruct (LoadEarningsData_obj _ bad _) as [[locals|e] st1]; [|done].
  by destruct (for_ rest locals LoadEarningsData_obj st1) as [[locals'|e] st2].
Qed.

End LoadMore.

(** X5: the index is rebuilt wholesale.  What a load that returns leaves
    in the index and in the universe depends on the feed alone, not on
    the state before: from any other state the same feed loads too, with
    the same index and universe; so loading a feed twice gives what
    loading it once gave. *)
Theorem LoadEarningsData_rebuilds `{Host} (feed : list feed_obj)
    (st1 st2 : Algorithm) :
  (LoadEarningsData feed st1).1 = Ok () →
  (LoadEarningsData feed st2).1 = Ok ()
  ∧ earnings (LoadEarningsData feed st2).2 = earnings (LoadEarningsData feed st1).2
  ∧ earnings_universe (LoadEarningsData feed st2).2
    = earnings_universe (LoadEarningsData feed st1).2
  ∧ earnings (LoadEarningsData feed (LoadEarningsData feed st1).2).2
    = earnings (LoadEarningsData feed st1).2
  ∧ earnings_universe (LoadEarningsData feed (LoadEarningsData feed st1).2).2
    = earnings_universe (LoadEarningsData feed st1).2.
Proof.
  intros Hok. apply LoadEarningsData_Ok_wf in Hok.
  by rewrite !LoadEarningsData_ok_eq.
Qed.

(** X6: after a load that returns, every ticker the index lists for a
    date is in the universe. *)
Theorem index_within_universe `{Host} (feed : list feed_obj) (st : Algorithm)
    (d : date) (t : string) :
  (LoadEarningsData feed st).1 = Ok () →
  t ∈ instruments_on (LoadEarningsData feed st).2 d →
  t ∈ eligible_universe (LoadEarningsData feed st).2.
Proof.
  intros Hok. apply LoadEarningsData_Ok_wf in Hok.
  rewrite LoadEarningsData_ok_eq by done.
  unfold instruments_on, eligible_universe. simpl.
  rewrite index_lookup, lookup_empty by done.
  destruct (last (bearing d feed)) as [obj|] eqn:Hlast; simpl;
    [|by intros ?%elem_of_nil].
  destruct (obj_tickers obj) as [ts|] eqn:Hts; simpl; [|by intros ?%elem_of_nil].
  intros Ht. apply elem_of_collect. right. exists obj, ts.
  split; [|done].
  apply last_Some in Hlast as [l' Hl'].
  assert (obj ∈ bearing d feed) as Hin.
  { rewrite Hl'. apply elem_of_app. right. by left. }
  unfold bearing in Hin. apply list_elem_of_In, filter_In in Hin as [Hin _].
  by apply list_elem_of_In.
Qed.

(** X7: where a load stops.  If the objects before [bad] load and [bad]
    does not parse, the load raises; the universe and the schedule are the
    ones before the load; every date but the one of [bad] holds what the
    objects before [bad] give.  If [bad] has no date or one that does not
    parse, that is the whole index; if it has a date but no stocks, that
    date is left with the empty list. *)
Theorem LoadEarningsData_stops_at `{Host} (good rest : list feed_obj)
    (bad : feed_obj) (st : Algorithm) :
  (LoadEarningsData good st).1 = Ok () →
  ¬ well_formed bad →
  let r := LoadEarningsData (good ++ bad :: rest) st in
  let before := earnings (LoadEarningsData good st).2 in
  (∃ e, r.1 = Raise e)
  ∧ earnings_universe r.2 = earnings_universe st
  ∧ schedule r.2 = schedule st
  ∧ (obj_day bad = None → earnings r.2 = before)
  ∧ (∀ d, obj_day bad = Some d →
       (∀ d', d' ≠ d → earnings r.2 !! d' = before !! d')
       ∧ (obj_stocks bad = None → earnings r.2 !! d = Some [])).
Proof.
  intros Hwf Hbad r before. apply LoadEarningsData_Ok_wf in Hwf.
  unfold before, r. rewrite LoadEarningsData_stops, (LoadEarningsData_ok_eq good) by done.
  rewrite LoadEarningsData_obj_eq.
  unfold well_formed, obj_day, obj_tickers in *.
  destruct (obj_date bad) as [s|]; simpl in *; [|split; [by eexists|done]].
  destruct (strptime_date s) as [d|]; simpl in *; [|split; [by eexists|done]].
  destruct (obj_stocks bad) as [stocks|]; simpl in *.
  - pose proof (preserves_for
      (λ st', earnings_universe st' = earnings_universe st
              ∧ schedule st' = schedule st
              ∧ ∀ d', d' ≠ d → earnings st' !! d' = foldl index_obj ∅ good !! d')
      stocks (foldl collect_obj ∅ good) (LoadEarningsData_stock d)) as Hloop.
    assert (∀ b x, x ∈ stocks →
      preserves
        (λ st', earnings_universe st' = earnings_universe st
                ∧ schedule st' = schedule st
                ∧ ∀ d', d' ≠ d → earnings st' !! d' = foldl index_obj ∅ good !! d')
        (LoadEarningsData_stock d b x)) as Hbody.
    { intros b x _ st' (Hu & Hs & He). rewrite LoadEarningsData_stock_eq.
      destruct (ticker x) as [t|]; simpl; [|done].
      repeat split; try done. intros d' Hd'. rewrite lookup_alter_ne by done.
      by apply He. }
    specialize (Hloop Hbody
      (set_earnings <[d:=[]]> (set_earnings (λ _, foldl index_obj ∅ good) st))).
    destruct (for_ stocks _ _ _) as [[es'|e] st1] eqn:Hrun.
    { destruct Hbad. split; [by eexists|]. by eapply load_stocks_inv. }
    destruct Hloop as (Hu & Hs & He).
    { repeat split; try done. intros d' Hd'. simpl. by rewrite lookup_insert_ne. }
    split; [by exists e|]. split; [done|]. split; [done|]. split; [done|].
    intros d0 [= <-]. split; [exact He|done].
  - split; [by eexists|].
    split; [done|]. split; [done|]. split; [done|].
    intros d0 [= <-]. simpl. split.
    + intros d' Hd'. by rewrite lookup_insert_ne.
    + intros _. by rewrite lookup_insert_eq.
Qed.

(** X8: what a load that returns schedules.  It hands the host one more
    list of dates, with one date for each object of the feed, in order:
    five business days before the date of the object, a business day
    earlier than that date. *)
Theorem LoadEarningsData_schedule `{Host} (feed : list feed_obj) (st : Algorithm) :
  (LoadEarningsData feed st).1 = Ok () →
  ∃ days,
    schedule (LoadEarningsData feed st).2 = schedule st ++ [days]
    ∧ Forall2 (λ obj t, ∃ d, obj_day obj = Some d ∧ t = sub_BDay d 5
                             ∧ weekday t ≤ 4 ∧ t < d) feed days.
Proof.
  intros Hok. apply LoadEarningsData_Ok_wf in Hok.
  rewrite LoadEarningsData_ok_eq by done. eexists. split; [done|].
  induction Hok as [|obj feed [[d Hd] _] _ IH]; simpl; [constructor|].
  rewrite Hd. simpl. constructor; [|exact IH].
  exists d. repeat split; [done|apply add_BDay_weekday|by apply sub_BDay_before].
Qed.

(** X9: the scheduled check meets the announcement only for the offset 5.
    After a load that returns, an object of the feed dated on a business
    day [d] has [d] in the index and [d - BDay(5)] in the list just
    scheduled; [DaysBefore] run on that day looks up
    [d - BDay(5) + BDay(buyDaysBefore)], which is [d] exactly when
    [buyDaysBefore] is 5. *)
Theorem scheduled_check_finds_date `{Host} (cfg : Config) (feed : list feed_obj)
    (st : Algorithm) (obj : feed_obj) (d : date) :
  (LoadEarningsData feed st).1 = Ok () →
  obj ∈ feed → obj_day obj = Some d → weekday d ≤ 4 →
  is_Some (earnings (LoadEarningsData feed st).2 !! d)
  ∧ (∃ days, last (schedule (LoadEarningsData feed st).2) = Some days
             ∧ sub_BDay d 5 ∈ days)
  ∧ (add_BDay (sub_BDay d 5) (buyDaysBefore cfg) = d ↔ buyDaysBefore cfg = 5).
Proof.
  intros Hok Hin Hd Hwd. apply LoadEarningsData_Ok_wf in Hok.
  rewrite LoadEarningsData_ok_eq by done. simpl. split; [|split].
  - rewrite index_lookup by done.
    assert (obj ∈ bearing d feed) as Hb.
    { unfold bearing. apply list_elem_of_In, filter_In. split.
      - by apply list_elem_of_In.
      - by apply bool_decide_eq_true. }
    destruct (last (bearing d feed)) as [obj'|] eqn:Hlast.
    + apply last_Some in Hlast as [l' Hl'].
      assert (obj' ∈ feed) as Hin'.
      { assert (obj' ∈ bearing d feed) as Hb'
          by (rewrite Hl'; apply elem_of_app; right; by left).
        unfold bearing in Hb'. apply list_elem_of_In, filter_In in Hb' as [Hb' _].
        by apply list_elem_of_In. }
      rewrite Forall_forall in Hok. by destruct (Hok obj' Hin') as [_ ?].
    + apply last_None in Hlast. rewrite Hlast in Hb. by apply elem_of_nil in Hb.
  - eexists. split; [apply last_snoc|].
    apply list_elem_of_omap. exists obj. split; [done|]. by rewrite Hd.
  - pose proof (BDay_round_trip d 5 Hwd) as Hrt.
    pose proof (add_BDay_weekday d (- 5)) as Hwt. fold (sub_BDay d 5) in Hwt.
    split; [|by intros ->].
    intros Heq.
    destruct (Z.lt_trichotomy (buyDaysBefore cfg) 5) as [Hlt|[?|Hgt]]; [|done|].
    + pose proof (add_BDay_strict (sub_BDay d 5) _ _ Hwt Hlt). lia.
    + pose proof (add_BDay_strict (sub_BDay d 5) _ _ Hwt Hgt). lia.
Qed.

(** ** More on [OnData] *)

Section OnDataMore.
Context `{Host} (cfg : Config).

(** The loop body for any capacity: a flip that is due raises
    [ZeroDivisionError] when the capacity is zero. *)
Lemma OnData_body_cases curr del m st :
  OnData_body cfg curr del m st =
    if flip_due curr st m
    then (if managed_symbols_size cfg =? 0
          then (Raise ZeroDivisionError, st)
          else (Ok del, place (OrderSetHoldings (symbol m) (- slot_weight cfg)%Qc) st))
    else if date_to_liquidate m <=? curr
    then (Ok (del ++ [m]), place (OrderLiquidate (symbol m)) st)
    else (Ok del, st).
Proof.
  destruct (Z.eqb_spec (managed_symbols_size cfg) 0) as [Hz|Hnz].
  - unfold OnData_body, flip_due, mbind, M_bind, get, lift, modify, mret, M_ret.
    unfold Py.truediv. rewrite Hz. simpl. by repeat case_match.
  - rewrite OnData_body_eq by done. done.
Qed.

(** The first loop, with the orders it issues: it either marks the
    positions whose liquidation date has come, with one liquidation for
    each, or stops at a flip with no capacity to divide by. *)
Lemma OnData_mark_orders curr l : ∀ del st,
  ∃ st' new,
    managed_symbols st' = managed_symbols st
    ∧ orders st' = orders st ++ new
    ∧ (length new ≤ length l)%nat
    ∧ (for_ l del (OnData_body cfg curr) st
         = (Ok (del ++ List.filter (λ m, date_to_liquidate m <=? curr) l), st')
       ∧ liquidated new
         = symbol <$> List.filter (λ m, date_to_liquidate m <=? curr) l
       ∨ for_ l del (OnData_body cfg curr) st = (Raise ZeroDivisionError, st')
         ∧ managed_symbols_size cfg = 0).
Proof.
  induction l as [|m l IH]; intros del st.
  - exists st, []. rewrite !app_nil_r. repeat split; try done. by left.
  - rewrite for_cons, OnData_body_cases.
    destruct (flip_due curr st m) eqn:Hflip.
    + destruct (Z.eqb_spec (managed_symbols_size cfg) 0) as [Hz|Hnz].
      * exists st, []. rewrite app_nil_r. repeat split; [simpl; lia|by right].
      * destruct (IH del (place (OrderSetHoldings (symbol m) (- slot_weight cfg)%Qc) st))
          as (st' & new & Hm & Ho & Hlen & Hrun).
        exists st', (OrderSetHoldings (symbol m) (- slot_weight cfg)%Qc :: new).
        split; [done|]. split; [rewrite Ho; simpl; by rewrite <- app_assoc|].
        split; [simpl; lia|].
        unfold flip_due in Hflip.
        apply andb_prop in Hflip as [[_ Hlt]%andb_prop _].
        cbn [List.filter].
        replace (date_to_liquidate m <=? curr) with false by lia.
        destruct Hrun as [[-> Hliq]|[-> Hz]]; [left|right]; done.
    + unfold flip_due in Hflip. cbn [List.filter].
      destruct (Z.leb_spec (date_to_liquidate m) curr) as [Hl|Hl].
      * destruct (IH (del ++ [m]) (place (OrderLiquidate (symbol m)) st))
          as (st' & new & Hm & Ho & Hlen & Hrun).
        exists st', (OrderLiquidate (symbol m) :: new).
        split; [done|]. split; [rewrite Ho; simpl; by rewrite <- app_assoc|].
        split; [simpl; lia|].
        destruct Hrun as [[-> Hliq]|[-> Hz]]; [left|right]; [|done].
        rewrite <- app_assoc. split; [done|]. simpl. by rewrite Hliq.
      * destruct (IH del st) as (st' & new & Hm & Ho & Hlen & Hrun).
        exists st', new. repeat split; try done. simpl. lia.
Qed.

(** [OnData] for any capacity. *)
Lemma OnData_cases curr st :
  ∃ st' new,
    orders st' = orders st ++ new
    ∧ (length new ≤ length (managed_symbols st))%nat
    ∧ (OnData cfg curr st = (Ok (), st')
       ∧ managed_symbols st'
         = List.filter (λ m, negb (date_to_liquidate m <=? curr)) (managed_symbols st)
       ∧ liquidated new
         = symbol <$> List.filter (λ m, date_to_liquidate m <=? curr)
                        (managed_symbols st)
       ∨ OnData cfg curr st = (Raise ZeroDivisionError, st')
         ∧ managed_symbols_size cfg = 0
         ∧ managed_symbols st' = managed_symbols st).
Proof.
  unfold OnData. unfold mbind at 1, M_bind at 1, get. unfold mbind, M_bind.
  destruct (OnData_mark_orders curr (managed_symbols st) [] st)
    as (st1 & new & Hm & Ho & Hlen & [[-> Hliq]|[-> Hz]]).
  - simpl.
    exists (set_managed_symbols
              (List.filter (λ m, negb (date_to_liquidate m <=? curr)) (managed_symbols st))
              st1), new.
    split; [done|]. split; [done|]. left. split; [|done].
    apply OnData_sweep. rewrite Hm. apply remove_each_filter.
  - exists st1, new. split; [done|]. split; [done|]. by right.
Qed.

End OnDataMore.

(** X10: how [OnData] fails.  If it raises, the exception is
    [ZeroDivisionError], the capacity is zero, and the managed set is the
    one before; it never raises [ValueError] from [list.remove]. *)
Theorem OnData_raises_only `{Host} (cfg : Config) (curr : date)
    (st st' : Algorithm) (e : exn) :
  OnData cfg curr st = (Raise e, st') →
  e = ZeroDivisionError
  ∧ managed_symbols_size cfg = 0
  ∧ managed_symbols st' = managed_symbols st.
Proof.
  intros Hrun.
  destruct (OnData_cases cfg curr st) as (st1 & new & _ & _ & [[Hok _]|[Hr [Hz Hm]]]).
  - congruence.
  - rewrite Hrun in Hr. by injection Hr as -> ->.
Qed.

(** X11: in a reachable state [OnData] returns, for any capacity that is
    not negative: with capacity zero there is no position to flip. *)
Theorem OnData_returns `{Host} (cfg : Config) (curr : date) (st : Algorithm) :
  0 ≤ managed_symbols_size cfg →
  reachable cfg st →
  (OnData cfg curr st).1 = Ok ().
Proof.
  intros Hsize Hreach.
  destruct (decide (managed_symbols_size cfg = 0)) as [Hz|Hnz].
  - assert (managed_symbols st = []) as Hnil.
    { revert st Hreach. apply (reachable_managed cfg (λ l, l = [])); [done|..].
      - intros l l' Hsub ->. by apply sublist_nil_r.
      - intros l symbol Time _ Hlt. simpl in Hlt. lia. }
    unfold OnData. unfold mbind, M_bind, get. by rewrite Hnil.
  - destruct (OnData_eq cfg curr st Hnz) as (st' & -> & _). done.
Qed.

(** X12: ticks compose.  With a capacity that is not zero, [OnData] at a
    date and then at a later date leaves the managed set that [OnData] at
    the later date alone leaves; at the same date twice, the second call
    removes nothing. *)
Theorem OnData_later_tick `{Host} (cfg : Config) (c1 c2 : date) (st : Algorithm) :
  managed_symbols_size cfg ≠ 0 →
  c1 ≤ c2 →
  managed_symbols (OnData cfg c2 (OnData cfg c1 st).2).2
  = managed_symbols (OnData cfg c2 st).2.
Proof.
  intros Hnz Hc.
  destruct (OnData_eq cfg c1 st Hnz) as (st1 & -> & Hm1). simpl.
  destruct (OnData_eq cfg c2 st1 Hnz) as (st2 & -> & Hm2).
  destruct (OnData_eq cfg c2 st Hnz) as (st3 & -> & Hm3). simpl.
  rewrite Hm2, Hm1, Hm3. clear -Hc.
  induction (managed_symbols st) as [|m l IH]; [done|].
  cbn [List.filter].
  destruct (Z.leb_spec (date_to_liquidate m) c1) as [H1|H1]; cbn [negb List.filter].
  - replace (date_to_liquidate m <=? c2) with true by lia. exact IH.
  - destruct (Z.leb_spec (date_to_liquidate m) c2); cbn [negb]; by rewrite IH.
Qed.

(** X13: removals and liquidations match.  With a capacity that is not
    zero, [OnData] issues at most one order for each managed position; the
    liquidations among them are, in order, those of the positions whose
    liquidation date has come, and these are the positions it removes. *)
Theorem OnData_liquidates_removed `{Host} (cfg : Config) (curr : date)
    (st : Algorithm) :
  managed_symbols_size cfg ≠ 0 →
  let st' := (OnData cfg curr st).2 in
  ∃ new,
    orders st' = orders st ++ new
    ∧ (length new ≤ length (managed_symbols st))%nat
    ∧ liquidated new
      = symbol <$> List.filter (λ m, date_to_liquidate m <=? curr) (managed_symbols st)
    ∧ managed_symbols st'
      = List.filter (λ m, negb (date_to_liquidate m <=? curr)) (managed_symbols st).
Proof.
  intros Hnz st'. unfold st'.
  destruct (OnData_cases cfg curr st)
    as (st1 & new & Ho & Hlen & [(-> & Hm & Hliq)|(_ & Hz & _)]); [|done].
  by exists new.
Qed.

(** ** More on [CoarseSelectionFunction] *)

Section CoarseMore.
Context `{Host} (cfg : Config).

Lemma alter_absent {A} (f : A → A) (D : gmap Symbol A) k :
  D !! k = None → alter f k D = D.
Proof.
  intros Hk. apply map_eq. intros i. destruct (decide (k = i)) as [<-|Hne].
  - by rewrite lookup_alter_eq, Hk.
  - by rewrite lookup_alter_ne.
Qed.

(** The daily update of prices. *)
Lemma update_loop_eq coarse : ∀ st,
  for_ coarse () (λ _ stock,
    let symbol := cf_Symbol stock in
    st ← get;
    match data st !! symbol with
    | Some _ => modify (set_data (alter (update (cf_AdjustedPrice stock)) symbol))
    | None => mret ()
    end) st
  = (Ok (), set_data (λ D, foldl daily_update D coarse) st).
Proof.
  induction coarse as [|stock coarse IH]; intros st.
  - simpl. by destruct st.
  - rewrite for_cons. unfold mbind at 1, M_bind at 1, get.
    destruct (data st !! cf_Symbol stock) eqn:Hk.
    + unfold modify. rewrite IH. done.
    + unfold mret, M_ret. rewrite IH. f_equal.
      unfold set_data. cbn [foldl].
      replace (daily_update (data st) stock) with (data st); [done|].
      symmetry. by apply alter_absent.
Qed.

(** The warm-up of the selected symbols. *)
Lemma warm_closes_eq symbol closes : ∀ st,
  for_ closes () (λ _ close, modify (set_data (alter (update close) symbol))) st
  = (Ok (), set_data (λ D, foldl (λ D close, alter (update close) symbol D) D closes) st).
Proof.
  induction closes as [|close closes IH]; intros st.
  - simpl. by destruct st.
  - rewrite for_cons. unfold modify at 1. by rewrite IH.
Qed.

Lemma warm_loop_eq History selected : ∀ st,
  for_ selected () (λ _ symbol,
    st ← get;
    match data st !! symbol with
    | Some _ => mret ()
    | None =>
        modify (set_data (<[symbol := data_tools.new (period cfg)]>));;
        match History symbol (period cfg) with
        | [] => mret ()
        | closes =>
            for_ closes () (λ _ close,
              modify (set_data (alter (update close) symbol)))
        end
    end) st
  = (Ok (), set_data (λ D, foldl (warm_up cfg History) D selected) st).
Proof.
  induction selected as [|symbol selected IH]; intros st.
  - simpl. by destruct st.
  - rewrite for_cons. unfold mbind at 1, M_bind at 1, get.
    destruct (data st !! symbol) eqn:Hk.
    + unfold mret, M_ret. rewrite IH. f_equal. unfold set_data. cbn [foldl].
      replace (warm_up cfg History (data st) symbol) with (data st); [done|].
      unfold warm_up. by rewrite Hk.
    + unfold mbind at 1, M_bind at 1, modify at 1.
      destruct (History symbol (period cfg)) as [|c cs] eqn:Hh.
      * unfold mret, M_ret. rewrite IH. f_equal. unfold set_data. cbn [foldl data].
        replace (warm_up cfg History (data st) symbol)
          with (<[symbol:=new (period cfg)]> (data st)); [done|].
        unfold warm_up. by rewrite Hk, Hh.
      * rewrite (warm_closes_eq symbol (c :: cs)), IH. f_equal.
        unfold set_data. cbn [foldl data].
        replace (warm_up cfg History (data st) symbol)
          with (foldl (λ D close, alter (update close) symbol D)
                  (alter (update c) symbol (<[symbol:=new (period cfg)]> (data st)))
                  cs); [done|].
        unfold warm_up. by rewrite Hk, Hh.
Qed.

(** The momentum snapshot reads the trackers and changes nothing. *)
Lemma momentum_snapshot_eq selected : ∀ momentum st,
  for_ selected momentum (λ momentum symbol,
    st ← get;
    sd ← getitem (Value symbol) (data st !! symbol);
    if is_ready sd then
      p ← lift (performance sd);
      mret (Py.dict_set symbol p momentum)
    else mret momentum) st
  = (snapshot (data st) selected momentum, st).
Proof.
  induction selected as [|symbol selected IH]; intros momentum st; [done|].
  rewrite for_cons. unfold mbind, M_bind, get, getitem, lift, mret, M_ret, raise.
  cbn [snapshot].
  destruct (data st !! symbol) as [sd|]; [|done].
  destruct (is_ready sd); [|apply IH].
  destruct (performance sd) as [p|e]; [apply IH|done].
Qed.

(** The whole pass, stage by stage. *)
Lemma CoarseSelectionFunction_eq History coarse st :
  CoarseSelectionFunction cfg History coarse st =
    let st1 := set_data (λ D, foldl daily_update D coarse) st in
    if negb (selection_flag st) then (Ok Unchanged, st1)
    else
      let selected := cf_Symbol <$> List.filter (selectable st) coarse in
      let st2 := set_data (λ D, foldl (warm_up cfg History) D selected)
                   (set_selection_flag false st1) in
      match snapshot (data st2) selected [] with
      | Ok momentum => select_top_quantile cfg momentum st2
      | Raise e => (Raise e, st2)
      end.
Proof.
  unfold CoarseSelectionFunction.
  unfold mbind at 1, M_bind at 1. rewrite update_loop_eq.
  unfold mbind at 1, M_bind at 1, get.
  cbn [selection_flag set_data].
  destruct (selection_flag st); cbn [negb]; [|done].
  unfold mbind at 1, M_bind at 1, modify at 1.
  unfold mbind at 1, M_bind at 1.
  rewrite warm_loop_eq.
  unfold mbind at 1, M_bind at 1. unfold momentum_snapshot.
  rewrite momentum_snapshot_eq. done.
Qed.

End CoarseMore.

Section CoarseResults.
Context `{Host} (cfg : Config).

Lemma daily_update_tracked coarse : ∀ (D : gmap Symbol SymbolData) s,
  is_Some (foldl daily_update D coarse !! s) ↔ is_Some (D !! s).
Proof.
  induction coarse as [|stock coarse IH]; intros D s; [done|].
  cbn [foldl]. rewrite IH. unfold daily_update. apply lookup_alter_is_Some.
Qed.

Lemma warm_closes_tracked (symbol : Symbol) closes : ∀ (D : gmap Symbol SymbolData) s,
  is_Some (foldl (λ D close, alter (update close) symbol D) D closes !! s)
  ↔ is_Some (D !! s).
Proof.
  induction closes as [|c closes IH]; intros D s; [done|].
  cbn [foldl]. rewrite IH. apply lookup_alter_is_Some.
Qed.

Lemma warm_up_tracked History (D : gmap Symbol SymbolData) symbol s :
  is_Some (warm_up cfg History D symbol !! s) ↔ s = symbol ∨ is_Some (D !! s).
Proof.
  unfold warm_up. destruct (D !! symbol) eqn:Hk.
  - split; [by right|]. intros [->|?]; [by rewrite Hk|done].
  - rewrite warm_closes_tracked, lookup_insert_is_Some.
    split; [intros [->|[_ ?]]; auto|].
    intros [->|Hs]; [by left|].
    destruct (decide (symbol = s)) as [->|?]; [by left|by right].
Qed.

Lemma warm_loop_tracked History selected : ∀ (D : gmap Symbol SymbolData) s,
  is_Some (foldl (warm_up cfg History) D selected !! s)
  ↔ s ∈ selected ∨ is_Some (D !! s).
Proof.
  induction selected as [|symbol selected IH]; intros D s.
  - split; [by right|]. intros [Hn|?]; [by apply elem_of_nil in Hn|done].
  - cbn [foldl]. rewrite IH, warm_up_tracked, elem_of_cons. tauto.
Qed.

(** The keys and the entries of a dict after an assignment. *)
Lemma dict_set_keys {V} (k : Symbol) (v : V) d s :
  s ∈ (Py.dict_set k v d).*1 ↔ s = k ∨ s ∈ d.*1.
Proof.
  induction d as [|[k' v'] d IH]; simpl.
  - rewrite list_elem_of_singleton. split; [by left|].
    intros [?|Hn]; [done|]. by apply elem_of_nil in Hn.
  - case_decide as Hk; simpl; rewrite !elem_of_cons.
    + subst. tauto.
    + rewrite IH. tauto.
Qed.

Lemma dict_set_NoDup {V} (k : Symbol) (v : V) d :
  NoDup d.*1 → NoDup (Py.dict_set k v d).*1.
Proof.
  induction d as [|[k' v'] d IH]; simpl; intros Hnd.
  - apply NoDup_singleton.
  - apply NoDup_cons in Hnd as [Hk' Hnd].
    case_decide as Hk; simpl.
    + subst. by apply NoDup_cons.
    + apply NoDup_cons. split; [|by apply IH].
      rewrite dict_set_keys. intros [?|?]; [congruence|done].
Qed.

Lemma dict_set_entries {V} (k : Symbol) (v : V) d s p :
  (s, p) ∈ Py.dict_set k v d → (s, p) = (k, v) ∨ (s, p) ∈ d.
Proof.
  induction d as [|[k' v'] d IH]; simpl.
  - rewrite list_elem_of_singleton. by left.
  - case_decide as Hk; rewrite !elem_of_cons.
    + intros [?|?]; [by left|by right; right].
    + intros [?|Hin]; [by right; left|].
      destruct (IH Hin); [by left|by right; right].
Qed.

(** What a snapshot that is built holds. *)
Lemma snapshot_Ok (D : gmap Symbol SymbolData) selected : ∀ m0 m,
  snapshot D selected m0 = Ok m →
  (NoDup m0.*1 → NoDup m.*1)
  ∧ (∀ s, s ∈ m.*1 ↔
          s ∈ m0.*1 ∨ (s ∈ selected ∧ ∃ sd, D !! s = Some sd ∧ is_ready sd = true))
  ∧ (∀ s p, (s, p) ∈ m →
            (s, p) ∈ m0 ∨ ∃ sd, D !! s = Some sd ∧ performance sd = Ok p).
Proof.
  induction selected as [|symbol selected IH]; intros m0 m; cbn [snapshot].
  - intros [= <-]. split; [done|]. split; [|by left].
    intros s. split; [by left|]. intros [?|[Hn _]]; [done|]. by apply elem_of_nil in Hn.
  - destruct (D !! symbol) as [sd|] eqn:Hk; [|done].
    destruct (is_ready sd) eqn:Hr.
    + destruct (performance sd) as [p|e] eqn:Hp; [|done].
      intros Hm. destruct (IH _ _ Hm) as (Hnd & Hkeys & Hent).
      split; [intros ?; by apply Hnd, dict_set_NoDup|]. split.
      * intros s. rewrite Hkeys, dict_set_keys, elem_of_cons. split.
        -- intros [[->|?]|[? ?]]; [right; split; [by left|by exists sd]|by left|].
           right. split; [by right|done].
        -- intros [?|[[->|?] Hsd]]; [by left; right|by left; left|by right].
      * intros s p' Hin. destruct (Hent s p' Hin) as [Hd|?]; [|by right].
        apply dict_set_entries in Hd as [[= -> ->]|?]; [right; by exists sd|by left].
    + intros Hm. destruct (IH _ _ Hm) as (Hnd & Hkeys & Hent).
      split; [done|]. split; [|done].
      intros s. rewrite Hkeys, elem_of_cons. split.
      * intros [?|[? ?]]; [by left|right]. split; [by right|done].
      * intros [?|[[->|?] (sd' & Hsd' & Hr')]]; [by left| |by right; split; [|exists sd']].
        rewrite Hk in Hsd'. injection Hsd' as <-. congruence.
Qed.

(** A snapshot over tracked symbols does not raise [KeyError]. *)
Lemma snapshot_tracked (D : gmap Symbol SymbolData) selected : ∀ m0 key,
  Forall (λ s, is_Some (D !! s)) selected →
  snapshot D selected m0 ≠ Raise (KeyError key).
Proof.
  induction selected as [|symbol selected IH]; intros m0 key Hall; cbn [snapshot];
    [done|].
  inversion_clear Hall as [|? ? [sd Hsd] Hall']. rewrite Hsd.
  destruct (is_ready sd) eqn:Hr; [|by apply IH].
  destruct (performance sd) as [p|e] eqn:Hp; [by apply IH|].
  unfold performance in Hp. rewrite Hr in Hp. simpl in Hp.
  repeat case_match; congruence.
Qed.

Lemma select_top_quantile_cases momentum st :
  ∃ st', (select_top_quantile cfg momentum st).2 = st'
    ∧ selection_flag st' = selection_flag st
    ∧ data st' = data st
    ∧ ((select_top_quantile cfg momentum st).1 = Raise ZeroDivisionError ∧ st' = st
       ∨ ∃ u, (select_top_quantile cfg momentum st).1 = Ok u
              ∧ (u = Unchanged ∧ selected_symbols st' = []
                 ∨ ∃ top, u = Symbols top ∧ selected_symbols st' = top
                          ∧ top ⊆ momentum.*1)).
Proof.
  unfold select_top_quantile.
  destruct (Z.of_nat (length momentum) <? quantile cfg).
  - eexists. split; [done|]. repeat split. right. exists Unchanged.
    split; [done|]. by left.
  - unfold Py.int_truediv. destruct (quantile cfg =? 0).
    + eexists. split; [done|]. repeat split. by left.
    + eexists. split; [done|]. repeat split. right. eexists. split; [done|].
      right. eexists. split; [done|]. split; [done|].
      intros s Hs. unfold Py.slice_from in Hs.
      apply subseteq_drop in Hs.
      apply list_elem_of_fmap in Hs as (a & -> & Ha).
      apply list_elem_of_fmap. exists a. split; [done|].
      by rewrite <- (sorted_Permutation snd momentum).
Qed.

End CoarseResults.

(** X14: between rebalances the selection is frozen.  With
    [selection_flag] false, [CoarseSelectionFunction] returns
    [Universe.Unchanged]; it applies one [update] for each element of
    [coarse] whose symbol is tracked and changes nothing else: the same
    symbols are tracked, and the selection, the flag, the index, the
    managed set and the orders are the ones before. *)
Theorem CoarseSelectionFunction_between_rebalances `{Host} (cfg : Config)
    (History : Symbol → Z → list Qc) (coarse : list CoarseFundamental)
    (st : Algorithm) :
  selection_flag st = false →
  CoarseSelectionFunction cfg History coarse st
  = (Ok Unchanged, set_data (λ D, foldl daily_update D coarse) st)
  ∧ dom (data (CoarseSelectionFunction cfg History coarse st).2) = dom (data st).
Proof.
  intros Hflag. rewrite CoarseSelectionFunction_eq, Hflag. simpl.
  split; [done|]. apply set_eq. intros s.
  rewrite !elem_of_dom. apply daily_update_tracked.
Qed.

(** X15: a rebalance is tried once.  After [CoarseSelectionFunction],
    returning or raising, [selection_flag] is false; and if it raised, the
    selection is the one before. *)
Theorem CoarseSelectionFunction_consumes_flag `{Host} (cfg : Config)
    (History : Symbol → Z → list Qc) (coarse : list CoarseFundamental)
    (st : Algorithm) :
  selection_flag (CoarseSelectionFunction cfg History coarse st).2 = false
  ∧ (∀ e, (CoarseSelectionFunction cfg History coarse st).1 = Raise e →
          selected_symbols (CoarseSelectionFunction cfg History coarse st).2
          = selected_symbols st).
Proof.
  rewrite CoarseSelectionFunction_eq.
  destruct (selection_flag st) eqn:Hflag; simpl; [|by split].
  destruct (snapshot _ _ _) as [m|e0]; [|by split].
  match goal with
  | |- context [select_top_quantile cfg m ?s] =>
      destruct (select_top_quantile_cases cfg m s)
        as (st' & Hst' & Hf & _ & [[Hr ->]|(u & Hu & _)])
  end.
  - rewrite Hst'. split; [done|]. intros e _. done.
  - rewrite Hst'. split; [by rewrite Hf|]. intros e He. congruence.
Qed.

(** X16: trackers are kept and found.  Every symbol tracked before
    [CoarseSelectionFunction] is tracked after it, and it never raises
    [KeyError]: by the time the snapshot reads [self.data[symbol]], every
    selected symbol has a tracker. *)
Theorem CoarseSelectionFunction_trackers `{Host} (cfg : Config)
    (History : Symbol → Z → list Qc) (coarse : list CoarseFundamental)
    (st : Algorithm) :
  (∀ s, is_Some (data st !! s) →
        is_Some (data (CoarseSelectionFunction cfg History coarse st).2 !! s))
  ∧ (∀ key, (CoarseSelectionFunction cfg History coarse st).1 ≠ Raise (KeyError key)).
Proof.
  rewrite CoarseSelectionFunction_eq.
  destruct (selection_flag st) eqn:Hflag; simpl.
  - set (selected := cf_Symbol <$> List.filter (selectable st) coarse).
    set (D := foldl (warm_up cfg History) (foldl daily_update (data st) coarse) selected).
    assert (∀ s, is_Some (data st !! s) → is_Some (D !! s)) as Hkeep.
    { intros s Hs. apply warm_loop_tracked. right. by apply daily_update_tracked. }
    pose proof (snapshot_tracked D selected [] ) as Hsnap.
    destruct (snapshot D selected []) as [m|e0] eqn:Hm.
    + match goal with
      | |- context [select_top_quantile cfg m ?s] =>
          destruct (select_top_quantile_cases cfg m s)
            as (st' & Hst' & _ & Hd & [[Hr _]|(u & Hu & _)])
      end; rewrite Hst', Hd; (split; [done|]); intros key; congruence.
    + split; [done|]. intros key. simpl. intros [= ->].
      apply (Hsnap key); [|done].
      apply Forall_forall. intros s Hs. apply warm_loop_tracked. by left.
  - split; [|done]. intros s Hs. by apply daily_update_tracked.
Qed.

(** X17: what the momentum snapshot holds.  It changes nothing; when it
    is built, its keys are the selected symbols whose tracker is ready,
    each once, and each value is the performance of that tracker. *)
Theorem momentum_snapshot_holds `{Host} (selected : list Symbol)
    (st : Algorithm) (momentum : list (Symbol * Qc)) :
  (momentum_snapshot selected st).1 = Ok momentum →
  (momentum_snapshot selected st).2 = st
  ∧ NoDup momentum.*1
  ∧ (∀ s, s ∈ momentum.*1 ↔
          s ∈ selected ∧ ∃ sd, data st !! s = Some sd ∧ is_ready sd = true)
  ∧ (∀ s p, (s, p) ∈ momentum →
            ∃ sd, data st !! s = Some sd ∧ performance sd = Ok p).
Proof.
  unfold momentum_snapshot. rewrite momentum_snapshot_eq. simpl.
  intros Hm. split; [done|].
  destruct (snapshot_Ok _ _ _ _ Hm) as (Hnd & Hkeys & Hent).
  split; [apply Hnd; constructor|]. split.
  - intros s. rewrite Hkeys. split; [|by right].
    intros [Hn|?]; [by apply elem_of_nil in Hn|done].
  - intros s p Hin. destruct (Hent s p Hin) as [Hn|?]; [by apply elem_of_nil in Hn|done].
Qed.

(** X18: what can be selected.  When [CoarseSelectionFunction] returns a
    list of symbols, that list is the new selection, and each of its
    symbols comes from an element of [coarse] that has fundamental data,
    trades on the market [usa] above 5, and has its ticker in the earnings
    universe, and has a tracker that is ready. *)
Theorem CoarseSelectionFunction_selects `{Host} (cfg : Config)
    (History : Symbol → Z → list Qc) (coarse : list CoarseFundamental)
    (st : Algorithm) (top : list Symbol) :
  (CoarseSelectionFunction cfg History coarse st).1 = Ok (Symbols top) →
  let st' := (CoarseSelectionFunction cfg History coarse st).2 in
  selected_symbols st' = top
  ∧ Forall (λ s,
      (∃ x, x ∈ coarse ∧ cf_Symbol x = s
            ∧ cf_HasFundamentalData x = true ∧ cf_Market x = "usa"
            ∧ (Q2Qc (inject_Z 5) < cf_Price x)%Qc
            ∧ Value s ∈ earnings_universe st)
      ∧ ∃ sd, data st' !! s = Some sd ∧ is_ready sd = true) top.
Proof.
  rewrite CoarseSelectionFunction_eq.
  destruct (selection_flag st) eqn:Hflag; simpl; [|done].
  set (selected := cf_Symbol <$> List.filter (selectable st) coarse).
  set (D := foldl (warm_up cfg History) (foldl daily_update (data st) coarse) selected).
  destruct (snapshot D selected []) as [m|e0] eqn:Hm; [|done].
  destruct (snapshot_Ok _ _ _ _ Hm) as (_ & Hkeys & _).
  match goal with
  | |- context [select_top_quantile cfg m ?s] =>
      destruct (select_top_quantile_cases cfg m s)
        as (st1 & Hst1 & _ & Hd & [[Hr _]|(u & Hu & [[-> _]|(top' & -> & Hsel & Hsub)])]);
      destruct (select_top_quantile cfg m s) as [o st2]
  end; simpl in *; subst st2; try congruence.
  subst o. intros [= <-]. split; [done|].
  apply Forall_forall. intros s Hs.
  apply Hsub, Hkeys in Hs as [Hn|[Hs Hsd]]; [by apply elem_of_nil in Hn|].
  split.
  - apply list_elem_of_fmap in Hs as (x & -> & Hx).
    apply list_elem_of_In, filter_In in Hx as [Hx Hsel'].
    exists x. split; [by apply list_elem_of_In|]. split; [done|].
    unfold selectable in Hsel'.
    apply andb_prop in Hsel' as [Hsel' Hu]. apply andb_prop in Hsel' as [Hsel' Hp].
    apply andb_prop in Hsel' as [Hf Hmk].
    apply bool_decide_eq_true in Hu, Hp, Hmk. done.
  - rewrite Hd. exact Hsd.
Qed.

(** ** [Selection] *)

Section SelectionMore.
Context `{Host} (cfg : Config).

Lemma Selection_eq st :
  rebalance_period cfg ≠ 0 →
  Selection cfg st =
    (Ok (), set_months_counter (months_counter st + 1)
              (if months_counter st mod rebalance_period cfg =? 0
               then set_selection_flag true st else st)).
Proof.
  intros Hp. unfold Selection, mbind, M_bind, get, lift, modify, mret, M_ret, Py.mod_.
  replace (rebalance_period cfg =? 0) with false by lia.
  by destruct (_ mod _ =? 0).
Qed.

Lemma Selections_spec n : ∀ st,
  rebalance_period cfg ≠ 0 →
  (Selections cfg n st).1 = Ok ()
  ∧ months_counter (Selections cfg n st).2 = months_counter st + Z.of_nat n
  ∧ (selection_flag (Selections cfg n st).2 = true ↔
     selection_flag st = true
     ∨ ∃ k, months_counter st ≤ k < months_counter st + Z.of_nat n
            ∧ k mod rebalance_period cfg = 0).
Proof.
  induction n as [|n IH]; intros st Hp.
  - simpl. split; [done|]. split; [lia|]. split; [by left|]. intros [?|(k & ? & _)]; [done|lia].
  - cbn [Selections]. unfold mbind, M_bind. rewrite Selection_eq by done.
    destruct (IH (set_months_counter (months_counter st + 1)
                    (if months_counter st mod rebalance_period cfg =? 0
                     then set_selection_flag true st else st)) Hp)
      as (Hok & Hc & Hf).
    split; [done|]. split; [rewrite Hc; simpl; lia|].
    rewrite Hf. clear IH Hok Hc Hf. simpl.
    destruct (Z.eqb_spec (months_counter st mod rebalance_period cfg) 0) as [Hz|Hnz];
      simpl.
    + split; [|by left]. intros _. right. exists (months_counter st). split; [lia|done].
    + split.
      * intros [?|(k & Hk & Hk0)]; [by left|]. right. exists k. split; [lia|done].
      * intros [?|(k & Hk & Hk0)]; [by left|]. right. exists k. split; [|done].
        destruct (decide (k = months_counter st)) as [->|?]; [done|lia].
Qed.

End SelectionMore.

(** X19: the quarterly flag.  With a rebalance period that is not zero,
    any number of [Selection] calls in a row return and count themselves
    in [months_counter]; afterwards [selection_flag] is set exactly if it
    was set before or one of the calls found [months_counter] a multiple
    of the period.  So [Selection] never clears the flag, and with a
    positive period it is set after any [rebalance_period] calls in a
    row. *)
Theorem Selection_flags `{Host} (cfg : Config) (n : nat) (st : Algorithm) :
  0 < rebalance_period cfg →
  (Selections cfg n st).1 = Ok ()
  ∧ months_counter (Selections cfg n st).2 = months_counter st + Z.of_nat n
  ∧ (selection_flag (Selections cfg n st).2 = true ↔
     selection_flag st = true
     ∨ ∃ k, months_counter st ≤ k < months_counter st + Z.of_nat n
            ∧ k mod rebalance_period cfg = 0)
  ∧ (rebalance_period cfg ≤ Z.of_nat n →
     selection_flag (Selections cfg n st).2 = true).
Proof.
  intros Hp. destruct (Selections_spec cfg n st ltac:(lia)) as (Hok & Hc & Hf).
  split; [done|]. split; [done|]. split; [done|].
  intros Hn. apply Hf. right.
  exists (months_counter st + (- months_counter st) mod rebalance_period cfg).
  pose proof (Z.mod_pos_bound (- months_counter st) (rebalance_period cfg) Hp).
  split; [lia|].
  rewrite Zplus_mod_idemp_r. rewrite Z.add_opp_diag_r. apply Zmod_0_l.
Qed.

(** ** More invariants *)

Lemma LoadEarningsData_flag `{Host} feed b c :
  preserves (λ st, selection_flag st = b ∧ months_counter st = c)
    (LoadEarningsData feed).
Proof.
  unfold LoadEarningsData, LoadEarningsData_obj, LoadEarningsData_stock.
  preserves_go; done.
Qed.

(** X20: how [Initialize] starts.  It returns only if the three
    parameters read as integers and every object of the feed parses; then
    the constants hold the values read, the managed set, the selection and
    the trackers are empty, the month counter is zero, a selection is due
    and no order has been issued.  Whenever it raises, the counter and the
    flag have not been assigned; and if a parameter does not read, it
    raises with the state as it was. *)
Theorem Initialize_starts `{Host} (parameter : string → outcome Z)
    (feed : list feed_obj) (st : Algorithm) :
  let r := Initialize parameter feed st in
  (∀ cfg, r.1 = Ok cfg →
     (∃ b s w, parameter "buyDaysBefore" = Ok b
               ∧ parameter "sellDaysAfter" = Ok s
               ∧ parameter "switchDaysAfter" = Ok w
               ∧ cfg = Initialize_config b s w)
     ∧ Forall well_formed feed
     ∧ managed_symbols r.2 = [] ∧ selected_symbols r.2 = [] ∧ data r.2 = ∅
     ∧ months_counter r.2 = 0 ∧ selection_flag r.2 = true
     ∧ orders r.2 = orders st)
  ∧ ((∀ cfg, r.1 ≠ Ok cfg) →
     selection_flag r.2 = selection_flag st
     ∧ months_counter r.2 = months_counter st)
  ∧ (∀ name e,
       name ∈ ["buyDaysBefore"; "sellDaysAfter"; "switchDaysAfter"] →
       parameter name = Raise e →
       ∃ e', r = (Raise e', st)).
Proof.
  unfold Initialize. unfold mbind, M_bind, lift, modify, mret, M_ret. simpl.
  destruct (parameter "buyDaysBefore") as [b|e1] eqn:Hb;
    [|split; [done|split; [done|by eexists]]].
  destruct (parameter "sellDaysAfter") as [s|e2] eqn:Hs;
    [|split; [done|split; [done|by eexists]]].
  destruct (parameter "switchDaysAfter") as [w|e3] eqn:Hw;
    [|split; [done|split; [done|by eexists]]].
  split; [|split].
  - intros cfg.
    destruct (LoadEarningsData feed _) as [[[]|e] st1] eqn:Hrun; [|done].
    simpl. intros [= <-].
    pose proof (LoadEarningsData_inv _ _ _ Hrun) as Hwf.
    rewrite LoadEarningsData_ok_eq in Hrun by done. injection Hrun as <-.
    split; [by exists b, s, w|]. by repeat split.
  - destruct (LoadEarningsData feed _) as [[[]|e] st1] eqn:Hrun.
    + simpl. intros Hno. by destruct (Hno (Initialize_config b s w)).
    + intros _. simpl.
      eapply (preserves_run _ _ _ _ _
                (LoadEarningsData_flag feed (selection_flag st) (months_counter st)));
        [|exact Hrun]. done.
  - intros name e Hin He. exfalso.
    repeat (apply elem_of_cons in Hin as [->|Hin]; [congruence|]).
    by apply elem_of_nil in Hin.
Qed.

(** X21: positions live on business days.  In every reachable state each
    managed position was built from one earnings date that is a business
    day, and its switch and liquidation dates are business days too. *)
Theorem managed_on_business_days `{Host} (cfg : Config) (st : Algorithm) :
  reachable cfg st →
  Forall (λ m, (∃ earnings_date,
                  weekday earnings_date ≤ 4
                  ∧ m = entry_of cfg earnings_date (symbol m))
               ∧ weekday (date_to_switch m) ≤ 4
               ∧ weekday (date_to_liquidate m) ≤ 4)
    (managed_symbols st).
Proof.
  revert st. apply (reachable_managed cfg (Forall _)).
  - constructor.
  - intros l l'. apply Forall_sublist.
  - intros l symbol Time Hl _. apply Forall_app. split; [done|].
    constructor; [|constructor]. simpl. split; [|split].
    + exists (add_BDay Time (buyDaysBefore cfg)). split; [apply add_BDay_weekday|done].
    + apply add_BDay_weekday.
    + apply add_BDay_weekday.
Qed.

(** ** The further properties on the run *)

Lemma DaysBefore_nothing_announced_witness :
  Forall (λ s, Value s ∉ instruments_on Demo.st1
                           (add_BDay 738523 (buyDaysBefore Demo.cfg)))
    (selected_symbols Demo.st1)
  ∧ DaysBefore Demo.cfg 738523 Demo.st1 = (Ok (), Demo.st1).
Proof.
  assert (Forall (λ s, Value s ∉ instruments_on Demo.st1
                                   (add_BDay 738523 (buyDaysBefore Demo.cfg)))
            (selected_symbols Demo.st1)) as Hnone by compute_done.
  split; [exact Hnone|].
  exact (DaysBefore_nothing_announced Demo.cfg 738523 Demo.st1 Hnone).
Defined.

Lemma st_weekend_dates d :
  is_Some (earnings Demo.st_weekend !! d) → 4 < weekday d.
Proof.
  assert (earnings Demo.st_weekend = {[ 738527 := ["S3"] ]}) as -> by compute_done.
  rewrite lookup_singleton_is_Some. by intros <-.
Qed.

Lemma DaysBefore_weekend_dates_witness :
  (∀ d, is_Some (earnings Demo.st_weekend !! d) → 4 < weekday d)
  ∧ DaysBefore Demo.cfg 738520 Demo.st_weekend = (Ok (), Demo.st_weekend).
Proof.
  split; [exact st_weekend_dates|].
  exact (DaysBefore_weekend_dates Demo.cfg 738520 Demo.st_weekend st_weekend_dates).
Defined.

Lemma feed_dup_loads : (LoadEarningsData Demo.feed_dup Demo.st0).1 = Ok ().
Proof. compute_done. Qed.

Lemma LoadEarningsData_rebuilds_witness :
  (LoadEarningsData Demo.feed_dup Demo.st0).1 = Ok ()
  ∧ earnings (LoadEarningsData Demo.feed_dup Demo.st1).2
    = earnings (LoadEarningsData Demo.feed_dup Demo.st0).2.
Proof.
  split; [exact feed_dup_loads|].
  exact (proj1 (proj2
    (LoadEarningsData_rebuilds Demo.feed_dup Demo.st0 Demo.st1 feed_dup_loads))).
Defined.

Lemma index_within_universe_witness :
  (LoadEarningsData Demo.feed_dup Demo.st0).1 = Ok ()
  ∧ "S3" ∈ instruments_on (LoadEarningsData Demo.feed_dup Demo.st0).2 738529
  ∧ "S3" ∈ eligible_universe (LoadEarningsData Demo.feed_dup Demo.st0).2.
Proof.
  assert ("S3" ∈ instruments_on (LoadEarningsData Demo.feed_dup Demo.st0).2 738529)
    as Hin by compute_done.
  split; [exact feed_dup_loads|]. split; [exact Hin|].
  exact (index_within_universe Demo.feed_dup Demo.st0 738529 "S3" feed_dup_loads Hin).
Defined.

Lemma feed_bad_good :
  (LoadEarningsData [{| obj_date := Some "2023-02-01";
                        obj_stocks := Some [{| ticker := Some "S1" |}] |}]
     Demo.st0).1 = Ok ().
Proof. compute_done. Qed.

Lemma feed_bad_bad : ¬ well_formed {| obj_date := None; obj_stocks := Some [] |}.
Proof. intros [[d Hd] _]. discriminate Hd. Qed.

Lemma LoadEarningsData_stops_at_witness :
  (LoadEarningsData [{| obj_date := Some "2023-02-01";
                        obj_stocks := Some [{| ticker := Some "S1" |}] |}]
     Demo.st0).1 = Ok ()
  ∧ ¬ well_formed {| obj_date := None; obj_stocks := Some [] |}
  ∧ earnings_universe (LoadEarningsData Demo.feed_bad Demo.st0).2
    = earnings_universe Demo.st0
  ∧ schedule (LoadEarningsData Demo.feed_bad Demo.st0).2 = schedule Demo.st0.
Proof.
  split; [exact feed_bad_good|]. split; [exact feed_bad_bad|].
  pose proof (LoadEarningsData_stops_at _ [] _ Demo.st0 feed_bad_good feed_bad_bad)
    as (_ & Hu & Hs & _).
  split; [exact Hu|exact Hs].
Defined.

Lemma LoadEarningsData_schedule_witness :
  (LoadEarningsData Demo.feed_dup Demo.st0).1 = Ok ()
  ∧ ∃ days,
      schedule (LoadEarningsData Demo.feed_dup Demo.st0).2
      = schedule Demo.st0 ++ [days]
      ∧ Forall2 (λ obj t, ∃ d, obj_day obj = Some d ∧ t = sub_BDay d 5
                               ∧ weekday t ≤ 4 ∧ t < d) Demo.feed_dup days.
Proof.
  split; [exact feed_dup_loads|].
  exact (LoadEarningsData_schedule Demo.feed_dup Demo.st0 feed_dup_loads).
Defined.

Lemma scheduled_check_finds_date_witness :
  (LoadEarningsData Demo.feed_dup Demo.st0).1 = Ok ()
  ∧ is_Some (earnings (LoadEarningsData Demo.feed_dup Demo.st0).2 !! 738530)
  ∧ (add_BDay (sub_BDay 738530 5) (buyDaysBefore Demo.cfg) = 738530
     ↔ buyDaysBefore Demo.cfg = 5).
Proof.
  split; [exact feed_dup_loads|].
  pose proof (scheduled_check_finds_date Demo.cfg Demo.feed_dup Demo.st0
    {| obj_date := Some "2023-01-10";
       obj_stocks := Some [{| ticker := Some "S2" |}] |} 738530
    feed_dup_loads ltac:(by right; left) eq_refl ltac:(by vm_compute))
    as (Hin & _ & Hiff).
  split; [exact Hin|exact Hiff].
Defined.

Lemma no_capacity_raises :
  OnData Demo.cfg_no_capacity 738530 Demo.st2
  = (Raise ZeroDivisionError, (OnData Demo.cfg_no_capacity 738530 Demo.st2).2).
Proof.
  assert ((OnData Demo.cfg_no_capacity 738530 Demo.st2).1 = Raise ZeroDivisionError)
    as Hr by compute_done.
  rewrite <- Hr. apply surjective_pairing.
Qed.

Lemma OnData_raises_only_witness :
  OnData Demo.cfg_no_capacity 738530 Demo.st2
  = (Raise ZeroDivisionError, (OnData Demo.cfg_no_capacity 738530 Demo.st2).2)
  ∧ managed_symbols_size Demo.cfg_no_capacity = 0
  ∧ managed_symbols (OnData Demo.cfg_no_capacity 738530 Demo.st2).2
    = managed_symbols Demo.st2.
Proof.
  split; [exact no_capacity_raises|].
  exact (proj2 (OnData_raises_only Demo.cfg_no_capacity 738530 Demo.st2 _ _
                  no_capacity_raises)).
Defined.

Lemma OnData_returns_witness :
  0 ≤ managed_symbols_size Demo.cfg
  ∧ reachable Demo.cfg Demo.st2
  ∧ (OnData Demo.cfg 738530 Demo.st2).1 = Ok ().
Proof.
  assert (0 ≤ managed_symbols_size Demo.cfg) as Hsize by (simpl; lia).
  split; [exact Hsize|]. split; [exact (proj1 Demo_reachable)|].
  exact (OnData_returns Demo.cfg 738530 Demo.st2 Hsize (proj1 Demo_reachable)).
Defined.

Lemma OnData_later_tick_witness :
  managed_symbols_size Demo.cfg ≠ 0
  ∧ 738530 ≤ 738536
  ∧ managed_symbols (OnData Demo.cfg 738536 (OnData Demo.cfg 738530 Demo.st2).2).2
    = managed_symbols (OnData Demo.cfg 738536 Demo.st2).2.
Proof.
  assert (managed_symbols_size Demo.cfg ≠ 0) as Hnz by (simpl; lia).
  assert (738530 ≤ 738536) as Hc by lia.
  split; [exact Hnz|]. split; [exact Hc|].
  exact (OnData_later_tick Demo.cfg 738530 738536 Demo.st2 Hnz Hc).
Defined.

Lemma OnData_liquidates_removed_witness :
  managed_symbols_size Demo.cfg ≠ 0
  ∧ ∃ new,
      orders (OnData Demo.cfg 738536 Demo.st4).2 = orders Demo.st4 ++ new
      ∧ (length new ≤ length (managed_symbols Demo.st4))%nat
      ∧ liquidated new
        = symbol <$> List.filter (λ m, date_to_liquidate m <=? 738536)
                       (managed_symbols Demo.st4)
      ∧ managed_symbols (OnData Demo.cfg 738536 Demo.st4).2
        = List.filter (λ m, negb (date_to_liquidate m <=? 738536))
            (managed_symbols Demo.st4).
Proof.
  assert (managed_symbols_size Demo.cfg ≠ 0) as Hnz by (simpl; lia).
  split; [exact Hnz|].
  exact (OnData_liquidates_removed Demo.cfg 738536 Demo.st4 Hnz).
Defined.

Lemma CoarseSelectionFunction_between_rebalances_witness :
  selection_flag Demo.st2 = false
  ∧ CoarseSelectionFunction Demo.cfg Demo.history Demo.coarse Demo.st2
    = (Ok Unchanged, set_data (λ D, foldl daily_update D Demo.coarse) Demo.st2).
Proof.
  assert (selection_flag Demo.st2 = false) as Hflag by compute_done.
  split; [exact Hflag|].
  exact (proj1 (CoarseSelectionFunction_between_rebalances
                  Demo.cfg Demo.history Demo.coarse Demo.st2 Hflag)).
Defined.

Lemma snapshot_now_built :
  (momentum_snapshot (Demo.tickers : list (@Symbol Sim.host)) Demo.st1).1
  = Ok Demo.snapshot_now.
Proof. compute_done. Qed.

Lemma momentum_snapshot_holds_witness :
  (momentum_snapshot (Demo.tickers : list (@Symbol Sim.host)) Demo.st1).1
  = Ok Demo.snapshot_now
  ∧ NoDup Demo.snapshot_now.*1.
Proof.
  split; [exact snapshot_now_built|].
  exact (proj1 (proj2 (momentum_snapshot_holds _ Demo.st1 _ snapshot_now_built))).
Defined.

Example Demo_snapshot_keys : Demo.snapshot_now.*1 = Demo.tickers.
Proof. compute_done. Qed.

Lemma first_selection :
  (CoarseSelectionFunction Demo.cfg Demo.history Demo.coarse Demo.st0).1
  = Ok (Symbols ["S3"]).
Proof. compute_done. Qed.

Lemma CoarseSelectionFunction_selects_witness :
  (CoarseSelectionFunction Demo.cfg Demo.history Demo.coarse Demo.st0).1
  = Ok (Symbols ["S3"])
  ∧ selected_symbols
      (CoarseSelectionFunction Demo.cfg Demo.history Demo.coarse Demo.st0).2
    = ["S3"].
Proof.
  split; [exact first_selection|].
  exact (proj1 (CoarseSelectionFunction_selects Demo.cfg Demo.history Demo.coarse
                  Demo.st0 ["S3"] first_selection)).
Defined.

Lemma Selection_flags_witness :
  0 < rebalance_period Demo.cfg
  ∧ (rebalance_period Demo.cfg ≤ Z.of_nat 3 →
     selection_flag (Selections Demo.cfg 3 Demo.st2).2 = true).
Proof.
  assert (0 < rebalance_period Demo.cfg) as Hp by (simpl; lia).
  split; [exact Hp|].
  exact (proj2 (proj2 (proj2 (Selection_flags Demo.cfg 3 Demo.st2 Hp)))).
Defined.

Lemma managed_on_business_days_witness :
  reachable Demo.cfg Demo.st2
  ∧ Forall (λ m, (∃ earnings_date,
                    weekday earnings_date ≤ 4
                    ∧ m = entry_of Demo.cfg earnings_date (symbol m))
                 ∧ weekday (date_to_switch m) ≤ 4
                 ∧ weekday (date_to_liquidate m) ≤ 4)
      (managed_symbols Demo.st2).
Proof.
  split; [exact (proj1 Demo_reachable)|].
  exact (managed_on_business_days Demo.cfg Demo.st2 (proj1 Demo_reachable)).
Defined.
